(** * Production efficiency and cost optimisation: scoring and allocation

    A shallow embedding of the three computational cells of the notebook
    [Production_Efficiency_and_Cost_Optimization.ipynb]:

    - the aggregation cell that builds [product_stats] (groupby + mean and
      the derived [resource_cost] column),
    - [compute_product_scores] (min-max normalisation, weighted score,
      [sort_values]),
    - [optimize_production] (the call of [linprog] and the two return
      paths),

    together with the properties of these cells.

    Frames are lists of rows, one record type per frame shape.  The two
    library calls whose code is not the notebook's, pandas' [sort_values]
    and scipy's [linprog], are parameters: the first is used through its
    contract, the second is left free.  The last part runs
    [compute_product_scores] over a store of frames, where a column
    assignment is an update in place, to state what a call leaves
    behind. *)

From Stdlib Require Import ZArith QArith Qcanon Lia Lqa Bool Arith List String Ascii.
From Stdlib Require Import Sorting.Sorted Sorting.Permutation.
From Stdlib Require Import Structures.OrderedTypeEx.
Import ListNotations.

Local Open Scope string_scope.
Local Open Scope list_scope.

(** ** Numbers

    The cells of a pandas float column.  Finite values are kept as exact
    rationals: the binary rounding of float64 and its overflow to [inf]
    are not modelled.  The three IEEE special values are kept, because
    the divisions of the notebook produce them: pandas does not raise on
    a division by zero, it stores [inf] or [NaN].  There is a single zero
    (no signed zero): a zero divisor behaves like [+0.0].

    A statement that rounding or overflow would break says so in its
    hypotheses: it bounds the values so that the notebook's operations
    stay within float64 (see [float64_max] and [safe_magnitude] below)
    and concludes only what a monotone rounding keeps: order, sign and
    range. *)

Module Num.

Inductive num : Type :=
| Fin (q : Qc)
| PInf
| NInf
| NaN.

Definition zero : num := Fin (Q2Qc 0).
Definition one : num := Fin (Q2Qc 1).

(** Literals: [a # b] as a finite cell, and integers. *)
Definition ofQ (q : Q) : num := Fin (Q2Qc q).
Definition ofZ (z : Z) : num := Fin (Q2Qc (inject_Z z)).

Definition isnan (x : num) : bool :=
  match x with NaN => true | _ => false end.

Definition is_finite (x : num) : bool :=
  match x with Fin _ => true | _ => false end.

(** Sign tests on rationals, through [Qccompare]. *)
Definition Qc_ltb (a b : Qc) : bool :=
  match Qccompare a b with Lt => true | _ => false end.
Definition Qc_leb (a b : Qc) : bool :=
  match Qccompare a b with Gt => false | _ => true end.
Definition Qc_eqb (a b : Qc) : bool :=
  match Qccompare a b with Eq => true | _ => false end.

Definition Qc0 : Qc := Q2Qc 0.

Definition opp (x : num) : num :=
  match x with
  | Fin q => Fin (Qcopp q)
  | PInf => NInf
  | NInf => PInf
  | NaN => NaN
  end.

Definition add (x y : num) : num :=
  match x, y with
  | NaN, _ | _, NaN => NaN
  | PInf, NInf | NInf, PInf => NaN
  | PInf, _ | _, PInf => PInf
  | NInf, _ | _, NInf => NInf
  | Fin a, Fin b => Fin (Qcplus a b)
  end.

Definition sub (x y : num) : num := add x (opp y).

(** An infinity carrying the sign of a finite factor; [inf * 0] is NaN. *)
Definition signed_inf (positive : bool) (q : Qc) : num :=
  if Qc_eqb q Qc0 then NaN
  else if Qc_ltb Qc0 q then (if positive then PInf else NInf)
  else (if positive then NInf else PInf).

Definition mul (x y : num) : num :=
  match x, y with
  | NaN, _ | _, NaN => NaN
  | PInf, PInf | NInf, NInf => PInf
  | PInf, NInf | NInf, PInf => NInf
  | PInf, Fin b => signed_inf true b
  | NInf, Fin b => signed_inf false b
  | Fin a, PInf => signed_inf true a
  | Fin a, NInf => signed_inf false a
  | Fin a, Fin b => Fin (Qcmult a b)
  end.

(** Division as numpy's [true_divide] on float64: [x / 0] is an infinity
    of the sign of [x], [0 / 0] and [inf / inf] are NaN, and a finite value
    over an infinity is 0. *)
Definition div (x y : num) : num :=
  match x, y with
  | NaN, _ | _, NaN => NaN
  | PInf, Fin b => if Qc_ltb b Qc0 then NInf else PInf
  | NInf, Fin b => if Qc_ltb b Qc0 then PInf else NInf
  | PInf, _ | NInf, _ => NaN
  | Fin _, PInf | Fin _, NInf => zero
  | Fin a, Fin b =>
      if Qc_eqb b Qc0 then
        (if Qc_eqb a Qc0 then NaN
         else if Qc_ltb Qc0 a then PInf else NInf)
      else Fin (Qcdiv a b)
  end.

(** Comparisons; every comparison with NaN is false. *)
Definition ltb (x y : num) : bool :=
  match x, y with
  | NaN, _ | _, NaN => false
  | _, NInf => false
  | NInf, _ => true
  | PInf, _ => false
  | _, PInf => true
  | Fin a, Fin b => Qc_ltb a b
  end.

Definition eqb (x y : num) : bool :=
  match x, y with
  | Fin a, Fin b => Qc_eqb a b
  | PInf, PInf | NInf, NInf => true
  | _, _ => false
  end.

Definition leb (x y : num) : bool := ltb x y || eqb x y.

Definition lt (x y : num) : Prop := ltb x y = true.
Definition le (x y : num) : Prop := leb x y = true.

(** *** Column reductions

    pandas reductions skip NaN cells ([skipna=True]) and give NaN when no
    cell is left. *)

Definition dropna (l : list num) : list num :=
  filter (fun x => negb (isnan x)) l.

Definition min2 (a b : num) : num := if ltb b a then b else a.
Definition max2 (a b : num) : num := if ltb a b then b else a.

Definition col_min (l : list num) : num :=
  match dropna l with
  | [] => NaN
  | x :: xs => fold_left min2 xs x
  end.

Definition col_max (l : list num) : num :=
  match dropna l with
  | [] => NaN
  | x :: xs => fold_left max2 xs x
  end.

Definition sum (l : list num) : num := fold_left add l zero.

Definition mean (l : list num) : num :=
  match dropna l with
  | [] => NaN
  | xs => div (sum xs) (ofZ (Z.of_nat (List.length xs)))
  end.

End Num.

Import Num.

Declare Scope num_scope.
Delimit Scope num_scope with num.
Bind Scope num_scope with num.
Infix "+" := add : num_scope.
Infix "-" := sub : num_scope.
Infix "*" := mul : num_scope.
Infix "/" := div : num_scope.
Notation "- x" := (opp x) : num_scope.

Local Open Scope num_scope.

(** ** Data model *)

(** One row of the production CSV, restricted to the columns that the
    aggregation cell reads. *)
Module Rec.
Record t : Type := mk {
  product_name : string;
  profit_per_unit : num;
  actual_cycle_time_per_unit_min : num;
  material_qty_used : num;
  material_cost_per_unit : num;
  labor_hours : num;
  labor_cost_per_hour : num;
  energy_kwh : num;
  energy_cost_per_kwh : num;
  actual_quantity : num
}.
End Rec.

(** One row of [product_stats] after the [rename]: the nine group means,
    with [profit_per_unit] renamed [profit] and
    [actual_cycle_time_per_unit_min] renamed [time], and the derived
    [resource] column. *)
Module Stats.
Record t : Type := mk {
  product_name : string;
  profit : num;
  time : num;
  material_qty_used : num;
  material_cost_per_unit : num;
  labor_hours : num;
  labor_cost_per_hour : num;
  energy_kwh : num;
  energy_cost_per_kwh : num;
  actual_quantity : num;
  resource : num
}.
End Stats.

(** One row of the working frame [df] of [compute_product_scores] once the
    four computed columns are in place. *)
Module Work.
Record t : Type := mk {
  base : Stats.t;
  profit_norm : num;
  time_norm : num;
  resource_norm : num;
  score : num
}.
End Work.

(** One row of the frame that [compute_product_scores] returns: the
    selection [['product_name', 'profit', 'time', 'resource', 'score']]. *)
Module Scored.
Record t : Type := mk {
  product_name : string;
  profit : num;
  time : num;
  resource : num;
  score : num
}.
End Scored.

(** One row of the frame that [optimize_production] returns on success. *)
Module Plan.
Record t : Type := mk {
  product_name : string;
  score : num;
  recommended_qty : Z
}.
End Plan.

(** ** Aggregation cell: [product_stats] *)

(** [groupby] orders its groups by key ([sort=True]): the distinct product
    names, ascending. *)
Fixpoint insert_key (k : string) (ks : list string) : list string :=
  match ks with
  | [] => [k]
  | k' :: ks' =>
      match String.compare k k' with
      | Lt => k :: ks
      | Eq => ks
      | Gt => k' :: insert_key k ks'
      end
  end.

Definition group_keys (df : list Rec.t) : list string :=
  fold_right insert_key [] (map Rec.product_name df).

Definition group (df : list Rec.t) (k : string) : list Rec.t :=
  filter (fun r => String.eqb (Rec.product_name r) k) df.

(** The ['mean'] aggregation of one column over one group. *)
Definition agg_mean (col : Rec.t -> num) (g : list Rec.t) : num :=
  mean (map col g).

(** The [resource_cost] expression of the notebook, on the group means. *)
Definition resource_cost
  (material_qty_used material_cost_per_unit labor_hours labor_cost_per_hour
   energy_kwh energy_cost_per_kwh actual_quantity : num) : num :=
  material_qty_used * material_cost_per_unit +
  (labor_hours * labor_cost_per_hour) / actual_quantity +
  (energy_kwh * energy_cost_per_kwh) / actual_quantity.

Definition stats_row (df : list Rec.t) (k : string) : Stats.t :=
  let g := group df k in
  let mq := agg_mean Rec.material_qty_used g in
  let mc := agg_mean Rec.material_cost_per_unit g in
  let lh := agg_mean Rec.labor_hours g in
  let lc := agg_mean Rec.labor_cost_per_hour g in
  let ek := agg_mean Rec.energy_kwh g in
  let ec := agg_mean Rec.energy_cost_per_kwh g in
  let aq := agg_mean Rec.actual_quantity g in
  {| Stats.product_name := k;
     Stats.profit := agg_mean Rec.profit_per_unit g;
     Stats.time := agg_mean Rec.actual_cycle_time_per_unit_min g;
     Stats.material_qty_used := mq;
     Stats.material_cost_per_unit := mc;
     Stats.labor_hours := lh;
     Stats.labor_cost_per_hour := lc;
     Stats.energy_kwh := ek;
     Stats.energy_cost_per_kwh := ec;
     Stats.actual_quantity := aq;
     Stats.resource := resource_cost mq mc lh lc ek ec aq |}.

Definition product_stats (df : list Rec.t) : list Stats.t :=
  map (stats_row df) (group_keys df).

(** ** Scoring cell: [compute_product_scores] *)

(** The expression [(col - col.min()) / (col.max() - col.min())], which the
    notebook writes once per metric, at one cell [v] of the column. *)
Definition min_max_norm (col : list num) (v : num) : num :=
  (v - col_min col) / (col_max col - col_min col).

Definition profit_norm (product_stats : list Stats.t) (r : Stats.t) : num :=
  min_max_norm (map Stats.profit product_stats) (Stats.profit r).

Definition time_norm (product_stats : list Stats.t) (r : Stats.t) : num :=
  min_max_norm (map Stats.time product_stats) (Stats.time r).

Definition resource_norm (product_stats : list Stats.t) (r : Stats.t) : num :=
  min_max_norm (map Stats.resource product_stats) (Stats.resource r).

(** [df['score'] = df['profit_norm'] - w_t * df['time_norm']
                   - w_r * df['resource_norm']]. *)
Definition score_expr (w_t w_r pn tn rn : num) : num :=
  pn - w_t * tn - w_r * rn.

(** One row of the frame [df] just before the [return]. *)
Definition work_row (product_stats : list Stats.t) (w_t w_r : num)
  (r : Stats.t) : Work.t :=
  let pn := profit_norm product_stats r in
  let tn := time_norm product_stats r in
  let rn := resource_norm product_stats r in
  {| Work.base := r;
     Work.profit_norm := pn;
     Work.time_norm := tn;
     Work.resource_norm := rn;
     Work.score := score_expr w_t w_r pn tn rn |}.

(** The frame [df] just before the [return]. *)
Definition work_frame (product_stats : list Stats.t) (w_t w_r : num)
  : list Work.t :=
  map (work_row product_stats w_t w_r) product_stats.

Definition select_scored (r : Work.t) : Scored.t :=
  {| Scored.product_name := Stats.product_name (Work.base r);
     Scored.profit := Stats.profit (Work.base r);
     Scored.time := Stats.time (Work.base r);
     Scored.resource := Stats.resource (Work.base r);
     Scored.score := Work.score r |}.

(** [sort_values(by='score', ascending=False)] is pandas' code, not the
    notebook's: it is a parameter of the scorer. *)
Definition sorter : Type := list Scored.t -> list Scored.t.

Definition compute_product_scores (sort_values : sorter)
  (product_stats : list Stats.t) (w_t w_r : num) : list Scored.t :=
  sort_values (map select_scored (work_frame product_stats w_t w_r)).

(** *** The contract of [sort_values(by='score', ascending=False)]

    The result is a reordering of the rows, in descending order of score,
    NaN scores last ([na_position='last']).  The notebook keeps the default
    [kind='quicksort'], for which pandas promises no stability. *)

(** [a] may stand before [b] in the sorted frame. *)
Definition score_before (a b : num) : bool :=
  isnan b || (negb (isnan a) && leb b a).

Definition row_before (a b : Scored.t) : bool :=
  score_before (Scored.score a) (Scored.score b).

Definition sorts_by_score_desc (sort_values : sorter) : Prop :=
  forall df,
    Permutation (sort_values df) df /\
    StronglySorted (fun a b => row_before a b = true) (sort_values df).

(** Stability: rows of equal score keep their relative order. *)
Definition has_score (k : num) (r : Scored.t) : bool :=
  eqb (Scored.score r) k.

Definition stable (sort_values : sorter) : Prop :=
  forall df k, filter (has_score k) (sort_values df) = filter (has_score k) df.

(** Two sorts that meet the contract.  Both are insertion sorts; the first
    puts a row before the rows of equal score met so far (stable), the
    second behind them. *)
Fixpoint insert_by (goes_first : Scored.t -> Scored.t -> bool)
  (r : Scored.t) (l : list Scored.t) : list Scored.t :=
  match l with
  | [] => [r]
  | r' :: l' =>
      if goes_first r r' then r :: l else r' :: insert_by goes_first r l'
  end.

Definition insertion_sort (goes_first : Scored.t -> Scored.t -> bool)
  (df : list Scored.t) : list Scored.t :=
  fold_right (insert_by goes_first) [] df.

Definition sort_values_stable : sorter := insertion_sort row_before.

Definition strictly_before (a b : Scored.t) : bool :=
  negb (row_before b a).

Definition sort_values_ties_reversed : sorter :=
  insertion_sort strictly_before.

(** ** Allocation cell: [optimize_production] *)

(** A Python call either returns a value or raises. *)
Inductive outcome (A : Type) : Type :=
| Returns (a : A)
| Raises (exn : string).
Arguments Returns {A} a.
Arguments Raises {A} exn.

(** scipy's [OptimizeResult]; the notebook reads [success], [x] and
    [message], never [status]. *)
Module Opt.
Record result : Type := mk {
  success : bool;
  status : Z;
  x : list num;
  message : string
}.
End Opt.

(** [linprog(c, A_ub=A, b_ub=b, bounds=bounds, method='highs')] is scipy's
    code, not the notebook's: it is a parameter of the allocator. *)
Definition solver : Type :=
  list num -> list (list num) -> list num -> list (num * option num) ->
  outcome Opt.result.

(** What [optimize_production] returns: the frame of recommended
    quantities, or a bare string. *)
Inductive allocation : Type :=
| Recommended (rows : list Plan.t)
| Failed (msg : string).

(** [np.round]: to the nearest integer, halves to the even neighbour. *)
Definition round_half_even (q : Qc) : Z :=
  let n := Qnum (this q) in
  let d := Zpos (Qden (this q)) in
  let f := Z.div (2 * n + d) (2 * d) in
  if Z.eqb (Z.modulo (2 * n + d) (2 * d)) 0 && Z.odd f then (f - 1)%Z else f.

Definition int64_min : Z := (- 2 ^ 63)%Z.
Definition int64_max : Z := (2 ^ 63 - 1)%Z.

(** [np.round(.).astype(int)]: the rounded value as an int64.  The cast of
    a float that is not finite, or whose rounded value does not fit
    int64, is whatever the C cast gives; on x86-64 that is the least
    int64. *)
Definition round_astype_int (v : num) : Z :=
  match v with
  | Fin q =>
      let z := round_half_even q in
      if Z.leb int64_min z && Z.leb z int64_max then z else int64_min
  | _ => int64_min
  end.

Definition plan_row (r : Scored.t) (q : num) : Plan.t :=
  {| Plan.product_name := Scored.product_name r;
     Plan.score := Scored.score r;
     Plan.recommended_qty := round_astype_int q |}.

Fixpoint map2 {A B C : Type} (f : A -> B -> C) (l : list A) (l' : list B)
  : list C :=
  match l, l' with
  | a :: l, b :: l' => f a b :: map2 f l l'
  | _, _ => []
  end.

(** The call [linprog(c, A_ub=A, b_ub=b, bounds=bounds, method='highs')]
    with the arrays that the notebook builds from [data]. *)
Definition call_linprog (linprog : solver) (data : list Scored.t)
  (T_max R_max : num) : outcome Opt.result :=
  let c := map (fun r => - Scored.score r) data in
  let A := [map Scored.time data; map Scored.resource data] in
  let b := [T_max; R_max] in
  let bounds := repeat (zero, @None num) (List.length data) in
  linprog c A b bounds.

Definition optimize_production (sort_values : sorter) (linprog : solver)
  (product_stats : list Stats.t) (w_t w_r T_max R_max : num)
  : outcome allocation :=
  let data := compute_product_scores sort_values product_stats w_t w_r in
  match call_linprog linprog data T_max R_max with
  | Raises e => Raises e
  | Returns result =>
      if Opt.success result then
        let quantities := Opt.x result in
        (* a column of another length than the frame is refused *)
        if Nat.eqb (List.length quantities) (List.length data) then
          Returns (Recommended (map2 plan_row data quantities))
        else Raises "ValueError"
      else
        Returns (Failed ("Optimization failed: " ++ Opt.message result))
  end.

(** Reading an [allocation] as the spec's [AllocationResult]: the
    feasibility flag is the return path taken, the diagnostic is the
    returned string, the quantities are the [recommended_qty] column. *)
Definition feasible (a : allocation) : bool :=
  match a with Recommended _ => true | Failed _ => false end.

Definition diagnostic (a : allocation) : option string :=
  match a with Recommended _ => None | Failed msg => Some msg end.

Definition quantities (a : allocation) : option (list Z) :=
  match a with
  | Recommended rows => Some (map Plan.recommended_qty rows)
  | Failed _ => None
  end.

(** A product that consumes neither time nor resource and has a positive
    score: with it the linear program has no finite optimum. *)
Definition free_and_positive (r : Scored.t) : bool :=
  eqb (Scored.time r) zero && eqb (Scored.resource r) zero &&
  ltb zero (Scored.score r).

(** Solvers that report a fixed failure, whatever the problem; scipy's
    status 2 stands for an infeasible problem, 3 for an unbounded one. *)
Definition reporting (status : Z) (message : string) : solver :=
  fun _ _ _ _ =>
    Returns {| Opt.success := false; Opt.status := status;
               Opt.x := []; Opt.message := message |}.

(** ** The scoring cell over a store of frames

    [compute_product_scores] reads the global [product_stats], works on
    [product_stats.copy()] and assigns four columns to that copy.  To
    speak about what the call leaves behind, frames live in a store and
    are named by locations; a column assignment updates the frame at a
    location in place, so that two names for one location see it. *)

Module Frame.
(** A frame by columns: the [product_name] column and the float columns in
    their order. *)
Record t : Type := mk {
  names : list string;
  columns : list (string * list num)
}.

Fixpoint get (c : string) (cols : list (string * list num))
  : option (list num) :=
  match cols with
  | [] => None
  | (c', v) :: cols' => if String.eqb c c' then Some v else get c cols'
  end.

(** [df[c] = v]: replaces the column when there is one, else appends it. *)
Fixpoint set (c : string) (v : list num) (cols : list (string * list num))
  : list (string * list num) :=
  match cols with
  | [] => [(c, v)]
  | (c', v') :: cols' =>
      if String.eqb c c' then (c, v) :: cols' else (c', v') :: set c v cols'
  end.
End Frame.

Definition loc : Type := nat.
Definition store : Type := list Frame.t.

(** A computation on the store: it may raise, and the store it leaves is
    there in both cases. *)
Definition M (A : Type) : Type := store -> outcome A * store.

Definition ret {A : Type} (a : A) : M A := fun h => (Returns a, h).

Definition raise {A : Type} (e : string) : M A := fun h => (Raises e, h).

Definition bind {A B : Type} (m : M A) (k : A -> M B) : M B :=
  fun h =>
    match m h with
    | (Returns a, h') => k a h'
    | (Raises e, h') => (Raises e, h')
    end.

Notation "x <- m ;; k" := (bind m (fun x => k))
  (at level 61, m at next level, right associativity).
Notation "m ;;; k" := (bind m (fun _ => k))
  (at level 61, right associativity).

Fixpoint update {A : Type} (i : nat) (a : A) (l : list A) : list A :=
  match i, l with
  | _, [] => []
  | O, _ :: l' => a :: l'
  | S i', b :: l' => b :: update i' a l'
  end.

Definition load (l : loc) : M Frame.t :=
  fun h =>
    match nth_error h l with
    | Some f => (Returns f, h)
    | None => (Raises "NameError", h)
    end.

(** A new object: it gets the next free location. *)
Definition alloc (f : Frame.t) : M loc :=
  fun h => (Returns (List.length h), h ++ [f]).

(** [df.copy()]: a new frame with the same content. *)
Definition copy (l : loc) : M loc :=
  f <- load l ;; alloc f.

(** [df[c]]. *)
Definition get_col (l : loc) (c : string) : M (list num) :=
  f <- load l ;;
  match Frame.get c (Frame.columns f) with
  | Some v => ret v
  | None => raise "KeyError"
  end.

(** [df[c] = v]: the frame at [l] is updated in place. *)
Definition set_col (l : loc) (c : string) (v : list num) : M unit :=
  f <- load l ;;
  fun h =>
    (Returns tt,
     update l {| Frame.names := Frame.names f;
                 Frame.columns := Frame.set c v (Frame.columns f) |} h).

(** [df[[...]]]: a new frame with the chosen columns. *)
Fixpoint pick (cs : list string) (cols : list (string * list num))
  : option (list (string * list num)) :=
  match cs with
  | [] => Some []
  | c :: cs' =>
      match Frame.get c cols, pick cs' cols with
      | Some v, Some rest => Some ((c, v) :: rest)
      | _, _ => None
      end
  end.

Definition select (l : loc) (cs : list string) : M loc :=
  f <- load l ;;
  match pick cs (Frame.columns f) with
  | Some cols => alloc {| Frame.names := Frame.names f; Frame.columns := cols |}
  | None => raise "KeyError"
  end.

(** Rows of a frame with the columns profit, time, resource, score. *)
Fixpoint zip_scored (ns : list string) (p t r s : list num)
  : list Scored.t :=
  match ns, p, t, r, s with
  | n :: ns, a :: p, b :: t, c :: r, d :: s =>
      Scored.mk n a b c d :: zip_scored ns p t r s
  | _, _, _, _, _ => []
  end.

Definition frame_of_scored (rows : list Scored.t) : Frame.t :=
  {| Frame.names := map Scored.product_name rows;
     Frame.columns :=
       [("profit", map Scored.profit rows);
        ("time", map Scored.time rows);
        ("resource", map Scored.resource rows);
        ("score", map Scored.score rows)] |}.

(** [.sort_values(by='score', ascending=False)] on the selected frame: a
    new frame, the rows reordered by the sorter. *)
Definition sort_values_by_score (sort_values : sorter) (l : loc) : M loc :=
  f <- load l ;;
  let cols := Frame.columns f in
  match Frame.get "profit" cols, Frame.get "time" cols,
        Frame.get "resource" cols, Frame.get "score" cols with
  | Some p, Some t, Some r, Some s =>
      alloc (frame_of_scored (sort_values (zip_scored (Frame.names f) p t r s)))
  | _, _, _, _ => raise "KeyError"
  end.

(** Series arithmetic, cell by cell. *)
Definition norm_col (col : list num) : list num :=
  map (min_max_norm col) col.

Definition score_col (w_t w_r : num) (pn tn rn : list num) : list num :=
  map2 sub (map2 sub pn (map (mul w_t) tn)) (map (mul w_r) rn).

(** The function of the notebook, statement by statement; [product_stats]
    is the location that the global name refers to.  The [product_name]
    column is the [names] of a frame, which a selection keeps. *)
Definition compute_product_scores_st (sort_values : sorter)
  (product_stats : loc) (w_t w_r : num) : M loc :=
  df <- copy product_stats ;;
  profit <- get_col df "profit" ;;
  set_col df "profit_norm" (norm_col profit) ;;;
  time <- get_col df "time" ;;
  set_col df "time_norm" (norm_col time) ;;;
  resource <- get_col df "resource" ;;
  set_col df "resource_norm" (norm_col resource) ;;;
  pn <- get_col df "profit_norm" ;;
  tn <- get_col df "time_norm" ;;
  rn <- get_col df "resource_norm" ;;
  set_col df "score" (score_col w_t w_r pn tn rn) ;;;
  out <- select df ["profit"; "time"; "resource"; "score"] ;;
  sort_values_by_score sort_values out.

(** The frame that holds a list of [product_stats] rows. *)
Definition frame_of_stats (rows : list Stats.t) : Frame.t :=
  {| Frame.names := map Stats.product_name rows;
     Frame.columns :=
       [("profit", map Stats.profit rows);
        ("time", map Stats.time rows);
        ("material_qty_used", map Stats.material_qty_used rows);
        ("material_cost_per_unit", map Stats.material_cost_per_unit rows);
        ("labor_hours", map Stats.labor_hours rows);
        ("labor_cost_per_hour", map Stats.labor_cost_per_hour rows);
        ("energy_kwh", map Stats.energy_kwh rows);
        ("energy_cost_per_kwh", map Stats.energy_cost_per_kwh rows);
        ("actual_quantity", map Stats.actual_quantity rows);
        ("resource", map Stats.resource rows)] |}.

(** The same function with [df = product_stats] in place of the copy: the
    two names share one frame. *)
Definition compute_product_scores_aliased (sort_values : sorter)
  (product_stats : loc) (w_t w_r : num) : M loc :=
  let df := product_stats in
  profit <- get_col df "profit" ;;
  set_col df "profit_norm" (norm_col profit) ;;;
  time <- get_col df "time" ;;
  set_col df "time_norm" (norm_col time) ;;;
  resource <- get_col df "resource" ;;
  set_col df "resource_norm" (norm_col resource) ;;;
  pn <- get_col df "profit_norm" ;;
  tn <- get_col df "time_norm" ;;
  rn <- get_col df "resource_norm" ;;
  set_col df "score" (score_col w_t w_r pn tn rn) ;;;
  out <- select df ["profit"; "time"; "resource"; "score"] ;;
  sort_values_by_score sort_values out.

(** ** Predicates used in the statements *)

(** Order of product names: Python compares strings by code point, here
    byte by byte. *)
Definition name_lt (s1 s2 : string) : Prop := String.compare s1 s2 = Lt.

(** What is said of one normalised cell [n] of the cell [v]: it is the
    min-max expression, lies between 0 and 1, is 1 at the maximum and 0 at
    the minimum. *)
Definition normalised_in_range (col : list num) (v n : num) : Prop :=
  n = (v - col_min col) / (col_max col - col_min col) /\
  le zero n /\ le n one /\
  (v = col_max col -> n = one) /\
  (v = col_min col -> n = zero).

(** ** Sample data *)

Definition record (name : string)
  (profit time mq mc lh lc ek ec aq : Z) : Rec.t :=
  Rec.mk name (ofZ profit) (ofZ time) (ofZ mq) (ofZ mc) (ofZ lh) (ofZ lc)
    (ofZ ek) (ofZ ec) (ofZ aq).

(** Four orders of three products.  The two Bolt orders average to the
    metrics of the Axle order. *)
Definition sample_orders : list Rec.t :=
  [ record "Bolt" 4 2 1 2 4 5 10 1 10;
    record "Cog"  1 5 1 1 0 0 0 0 1;
    record "Axle" 5 3 2 2 4 5 10 1 10;
    record "Bolt" 6 4 3 2 4 5 10 1 10 ].

(** Two products with the same cycle time. *)
Definition same_time_orders : list Rec.t :=
  [ record "Axle" 5 3 2 2 4 5 10 1 10;
    record "Cog"  1 3 1 1 0 0 0 0 1 ].

(** An order that produced nothing: its actual quantity is 0. *)
Definition idle_orders : list Rec.t :=
  [ record "Axle" 5 3 2 2 4 5 10 1 10;
    record "Dud"  0 3 1 1 4 5 10 1 0 ].

(** A product that takes no time and no resource. *)
Definition free_orders : list Rec.t :=
  [ record "Free" 2 0 0 0 0 0 0 0 1;
    record "Paid" 1 1 1 1 0 0 0 0 1 ].

(** ** A frame rule for the store

    [keeps h0 m Q]: started in any store that extends [h0], the
    computation [m] leaves a store that still extends [h0] (the frames of
    [h0] are where and what they were), and a returned value satisfies
    [Q]. *)
Definition keeps {A : Type} (h0 : store) (m : M A) (Q : A -> Prop) : Prop :=
  forall t, exists t',
    snd (m (h0 ++ t)) = h0 ++ t' /\
    forall a, fst (m (h0 ++ t)) = Returns a -> Q a.

(** A location that is not one of [h0]. *)
Definition fresh_for (h0 : store) (l : loc) : Prop :=
  (List.length h0 <= l)%nat.

(** The frame [df] at the [return]: the copy with its four new columns. *)
Definition work_frame_of_stats (rows : list Stats.t) (w_t w_r : num)
  : Frame.t :=
  {| Frame.names := Frame.names (frame_of_stats rows);
     Frame.columns :=
       Frame.columns (frame_of_stats rows) ++
       [("profit_norm", norm_col (map Stats.profit rows));
        ("time_norm", norm_col (map Stats.time rows));
        ("resource_norm", norm_col (map Stats.resource rows));
        ("score", map (fun r => Work.score (work_row rows w_t w_r r)) rows)]
  |}.

(** ** Predicates on cells and columns *)

(** The finite cells of a column, in order. *)
Definition finite_values (l : list num) : list Qc :=
  flat_map (fun v => match v with Fin q => [q] | _ => [] end) l.

(** A cell that is missing (NaN) or a finite number: what a numeric CSV
    column holds. *)
Definition nan_or_finite (v : num) : bool := isnan v || is_finite v.

Definition is_nonneg (v : num) : bool :=
  match v with Fin q => Qc_leb Qc0 q | _ => false end.

Definition is_positive (v : num) : bool :=
  match v with Fin q => Qc_ltb Qc0 q | _ => false end.

(** The count of a list as a rational. *)
Definition Qc_of_nat (n : nat) : Qc := Q2Qc (inject_Z (Z.of_nat n)).

Definition Qc_of_Z (z : Z) : Qc := Q2Qc (inject_Z z).

Definition half : Qc := Q2Qc (1 # 2).




(** An order whose usage and cost cells are numbers, none negative, and
    whose actual quantity is a positive number. *)
Definition costs_nonneg_quantity_positive (r : Rec.t) : bool :=
  is_nonneg (Rec.material_qty_used r) &&
  is_nonneg (Rec.material_cost_per_unit r) &&
  is_nonneg (Rec.labor_hours r) &&
  is_nonneg (Rec.labor_cost_per_hour r) &&
  is_nonneg (Rec.energy_kwh r) &&
  is_nonneg (Rec.energy_cost_per_kwh r) &&
  is_positive (Rec.actual_quantity r).


(** The part of a scored row that comes from [product_stats] unchanged. *)
Definition metrics_of_scored (r : Scored.t)
  : string * num * num * num :=
  (Scored.product_name r, Scored.profit r, Scored.time r, Scored.resource r).

Definition metrics_of_stats (s : Stats.t) : string * num * num * num :=
  (Stats.product_name s, Stats.profit s, Stats.time s, Stats.resource s).

(** A solver that reports success with the given quantities, whatever the
    problem. *)
Definition answering (quantities : list num) : solver :=
  fun _ _ _ _ =>
    Returns {| Opt.success := true; Opt.status := 0;
               Opt.x := quantities;
               Opt.message := "Optimization terminated successfully." |}.

(** A frame has the three metric columns that the scorer reads. *)
Definition has_column (c : string) (f : Frame.t) : bool :=
  match Frame.get c (Frame.columns f) with Some _ => true | None => false end.

Definition has_metric_columns (f : Frame.t) : bool :=
  has_column "profit" f && has_column "time" f && has_column "resource" f.

(** A table that lacks the resource column. *)
Definition frame_without_resource : Frame.t :=
  {| Frame.names := ["Axle"; "Cog"];
     Frame.columns := [("profit", [ofZ 5; ofZ 1]);
                       ("time", [ofZ 3; ofZ 5])] |}.

(** ** The range of float64

    The cells of the notebook are float64.  The arithmetic above is exact
    on finite cells; the statements that need it say that a value stays
    within the range of float64, where the notebook's own operations do
    not overflow. *)

(** The largest finite float64: (2^53 - 1) * 2^971. *)
Definition float64_max : num := ofZ ((2 ^ 53 - 1) * 2 ^ 971).

(** The subtraction [col.max() - col.min()] stays within float64. *)
Definition span_fits_float64 (col : list num) : Prop :=
  le (col_max col - col_min col) float64_max.

(** A bound far inside the range of float64: sums over the orders of a
    product, and products and quotients of two such means, stay finite. *)
Definition safe_magnitude : Qc := Qc_of_Z (2 ^ 300).

Definition magnitude_is_safe (v : num) : bool :=
  match v with
  | Fin q => Qc_leb (- safe_magnitude) q && Qc_leb q safe_magnitude
  | _ => false
  end.


Definition nonneg_and_safe (v : num) : bool :=
  is_nonneg v && magnitude_is_safe v.

Definition at_least_one_and_safe (v : num) : bool :=
  match v with
  | Fin q => Qc_leb (Q2Qc 1) q && Qc_leb q safe_magnitude
  | _ => false
  end.

(** An order whose usage and cost cells are non-negative numbers of safe
    magnitude and whose actual quantity is a number from 1 up to the safe
    magnitude. *)
Definition costs_and_quantity_in_range (r : Rec.t) : bool :=
  nonneg_and_safe (Rec.material_qty_used r) &&
  nonneg_and_safe (Rec.material_cost_per_unit r) &&
  nonneg_and_safe (Rec.labor_hours r) &&
  nonneg_and_safe (Rec.labor_cost_per_hour r) &&
  nonneg_and_safe (Rec.energy_kwh r) &&
  nonneg_and_safe (Rec.energy_cost_per_kwh r) &&
  at_least_one_and_safe (Rec.actual_quantity r).

(** A quantity that fits int64 once rounded. *)
Definition fits_int64 (q : Qc) : Prop :=
  (Qc_of_Z int64_min <= q)%Qc /\ (q <= Qc_of_Z int64_max)%Qc.

(** ** A solver that checks its input

    scipy's [linprog] validates its arguments before it solves: an
    objective vector with a NaN or infinite coefficient is refused with
    ValueError.  [inner] stands for the solve proper. *)
Definition linprog_validating (inner : solver) : solver :=
  fun c A b bounds =>
    if forallb is_finite c then inner c A b bounds
    else Raises "ValueError".

(** ** A sort as numpy runs it

    [sort_values(by='score', ascending=False)] with the default kind goes
    through pandas' [nargsort]: the rows without NaN score are reversed,
    argsorted in ascending order by numpy's quicksort, and the result is
    reversed again; the NaN rows follow.  Below is numpy's scalar
    quicksort kernel: median-of-three partitions while a range has more
    than 16 elements, insertion sort below that.  The two sides of a
    partition are sorted one after the other; the fuel is the length of
    the array, more than the recursion can use.  Left out: the kernel's
    switch to heapsort when the recursion gets deeper than twice the
    binary logarithm of the length.  (numpy builds that dispatch to
    vector kernels order equal keys otherwise.) *)















(** * Properties *)

(** ** Facts about the numbers *)

Lemma Qc_eqb_eq (a b : Qc) : Qc_eqb a b = true <-> a = b.
Proof.
  unfold Qc_eqb. rewrite Qceq_alt.
  destruct (Qccompare a b); split; intro H; try reflexivity; discriminate.
Qed.

Lemma Qc_ltb_lt (a b : Qc) : Qc_ltb a b = true <-> (a < b)%Qc.
Proof.
  unfold Qc_ltb. rewrite Qclt_alt.
  destruct (Qccompare a b); split; intro H; try reflexivity; discriminate.
Qed.

Lemma Qc_eqb_refl (a : Qc) : Qc_eqb a a = true.
Proof. now apply Qc_eqb_eq. Qed.

Lemma Qc_ltb_irrefl (a : Qc) : Qc_ltb a a = false.
Proof.
  destruct (Qc_ltb a a) eqn:E; [|reflexivity].
  apply Qc_ltb_lt in E. now apply Qclt_not_eq in E.
Qed.

Lemma Qc_ltb_false (a b : Qc) : Qc_ltb a b = false <-> (b <= a)%Qc.
Proof.
  split; intro H.
  - apply Qcnot_lt_le. intro L. apply Qc_ltb_lt in L. congruence.
  - destruct (Qc_ltb a b) eqn:E; [|reflexivity].
    apply Qc_ltb_lt in E. now apply Qcle_not_lt in H.
Qed.

Lemma Qc_eqb_false (a b : Qc) : Qc_eqb a b = false <-> a <> b.
Proof.
  split; intro H.
  - intro E. apply Qc_eqb_eq in E. congruence.
  - destruct (Qc_eqb a b) eqn:E; [|reflexivity].
    apply Qc_eqb_eq in E. contradiction.
Qed.

(** Moving between the boolean tests and the order of [Qc]. *)
Ltac qc_bool :=
  repeat match goal with
  | H : Qc_ltb _ _ = true |- _ => apply Qc_ltb_lt in H
  | H : Qc_ltb _ _ = false |- _ => apply Qc_ltb_false in H
  | H : Qc_eqb _ _ = true |- _ => apply Qc_eqb_eq in H
  | H : Qc_eqb _ _ = false |- _ => apply Qc_eqb_false in H
  | |- Qc_ltb _ _ = true => apply Qc_ltb_lt
  | |- Qc_ltb _ _ = false => apply Qc_ltb_false
  | |- Qc_eqb _ _ = true => apply Qc_eqb_eq
  | |- Qc_eqb _ _ = false => apply Qc_eqb_false
  end.

Lemma eqb_eq (x y : num) : eqb x y = true -> x = y.
Proof.
  destruct x, y; simpl; intro H; try reflexivity; try discriminate.
  qc_bool. now subst.
Qed.

Lemma eqb_refl (x : num) : isnan x = false -> eqb x x = true.
Proof.
  destruct x; simpl; intro H; try reflexivity; try discriminate.
  apply Qc_eqb_refl.
Qed.

Lemma ltb_irrefl (x : num) : ltb x x = false.
Proof. destruct x; simpl; auto using Qc_ltb_irrefl. Qed.

Lemma ltb_trans (x y z : num) :
  ltb x y = true -> ltb y z = true -> ltb x z = true.
Proof.
  destruct x, y, z; simpl; intros; try reflexivity; try discriminate.
  qc_bool. eapply Qclt_trans; eassumption.
Qed.

Lemma leb_refl (x : num) : isnan x = false -> leb x x = true.
Proof.
  unfold leb. destruct x; simpl; intros; try discriminate;
    rewrite ?Qc_eqb_refl, ?orb_true_r; reflexivity.
Qed.

Lemma leb_trans (x y z : num) :
  leb x y = true -> leb y z = true -> leb x z = true.
Proof.
  unfold leb. intros H1 H2.
  apply orb_true_iff in H1, H2. apply orb_true_iff.
  destruct H1 as [H1|H1], H2 as [H2|H2].
  - left. eapply ltb_trans; eassumption.
  - apply eqb_eq in H2. subst. now left.
  - apply eqb_eq in H1. subst. now left.
  - apply eqb_eq in H1. subst. now right.
Qed.

(** Away from NaN the order is total. *)
Lemma ltb_false_leb (x y : num) :
  isnan x = false -> isnan y = false -> ltb x y = false -> leb y x = true.
Proof.
  unfold leb. destruct x, y; simpl; intros; try reflexivity; try discriminate.
  qc_bool. apply orb_true_iff.
  destruct (Qc_eq_dec q0 q) as [->|N].
  - right. now apply Qc_eqb_refl.
  - left. qc_bool. apply Qcle_lt_or_eq in H1. destruct H1; congruence.
Qed.

Lemma leb_antisym (x y : num) : leb x y = true -> leb y x = true -> x = y.
Proof.
  unfold leb. intros H1 H2.
  apply orb_true_iff in H1, H2.
  destruct H1 as [H1|H1]; [|now apply eqb_eq].
  destruct H2 as [H2|H2]; [|symmetry; now apply eqb_eq].
  pose proof (ltb_trans _ _ _ H1 H2) as C. rewrite ltb_irrefl in C. discriminate.
Qed.

Lemma leb_notnan (x y : num) :
  leb x y = true -> isnan x = false /\ isnan y = false.
Proof. unfold leb. destruct x, y; simpl; intros; auto; discriminate. Qed.

Lemma ltb_leb (x y : num) : ltb x y = true -> leb x y = true.
Proof. unfold leb. intros ->. reflexivity. Qed.


(** *** The reductions *)

Lemma dropna_notnan (l : list num) :
  Forall (fun v => isnan v = false) (dropna l).
Proof.
  apply Forall_forall. intros v Hv. apply filter_In in Hv.
  destruct Hv as [_ Hv]. now apply negb_true_iff.
Qed.

Lemma dropna_id (l : list num) :
  Forall (fun v => isnan v = false) l -> dropna l = l.
Proof.
  induction 1 as [|v l Hv _ IH]; [reflexivity|].
  unfold dropna in *. simpl. rewrite Hv, IH. reflexivity.
Qed.

Lemma fold_min2_spec (xs : list num) : forall x,
  Forall (fun v => isnan v = false) (x :: xs) ->
  In (fold_left min2 xs x) (x :: xs) /\
  Forall (fun v => leb (fold_left min2 xs x) v = true) (x :: xs).
Proof.
  induction xs as [|y xs IH]; intros x H.
  - simpl. split; [now left|]. constructor; [|constructor].
    inversion H; subst. now apply leb_refl.
  - inversion H as [|? ? Hx Hrest]; subst.
    inversion Hrest as [|? ? Hy Hxs]; subst.
    assert (Hm : isnan (min2 x y) = false)
      by (unfold min2; destruct (ltb y x); assumption).
    destruct (IH (min2 x y) (Forall_cons _ Hm Hxs)) as [Hin Hle].
    simpl fold_left. split.
    + destruct Hin as [Hin|Hin].
      * rewrite <- Hin. unfold min2. destruct (ltb y x); simpl; auto.
      * right. now right.
    + inversion Hle as [|? ? Hhead Htail]; subst.
      assert (Hxy : leb (min2 x y) x = true /\ leb (min2 x y) y = true).
      { unfold min2. destruct (ltb y x) eqn:E.
        - split; [now apply ltb_leb | now apply leb_refl].
        - split; [now apply leb_refl | now apply ltb_false_leb]. }
      destruct Hxy as [Hx' Hy'].
      constructor; [eapply leb_trans; eassumption|].
      constructor; [eapply leb_trans; eassumption|assumption].
Qed.

Lemma fold_max2_spec (xs : list num) : forall x,
  Forall (fun v => isnan v = false) (x :: xs) ->
  In (fold_left max2 xs x) (x :: xs) /\
  Forall (fun v => leb v (fold_left max2 xs x) = true) (x :: xs).
Proof.
  induction xs as [|y xs IH]; intros x H.
  - simpl. split; [now left|]. constructor; [|constructor].
    inversion H; subst. now apply leb_refl.
  - inversion H as [|? ? Hx Hrest]; subst.
    inversion Hrest as [|? ? Hy Hxs]; subst.
    assert (Hm : isnan (max2 x y) = false)
      by (unfold max2; destruct (ltb x y); assumption).
    destruct (IH (max2 x y) (Forall_cons _ Hm Hxs)) as [Hin Hle].
    simpl fold_left. split.
    + destruct Hin as [Hin|Hin].
      * rewrite <- Hin. unfold max2. destruct (ltb x y); simpl; auto.
      * right. now right.
    + inversion Hle as [|? ? Hhead Htail]; subst.
      assert (Hxy : leb x (max2 x y) = true /\ leb y (max2 x y) = true).
      { unfold max2. destruct (ltb x y) eqn:E.
        - split; [now apply ltb_leb | now apply leb_refl].
        - split; [now apply leb_refl | now apply ltb_false_leb]. }
      destruct Hxy as [Hx' Hy'].
      constructor; [eapply leb_trans; eassumption|].
      constructor; [eapply leb_trans; eassumption|assumption].
Qed.

(** On a column without NaN, [min()] is a cell of the column below all
    the others, and [max()] one above all the others. *)
Lemma col_min_spec (col : list num) :
  col <> [] -> Forall (fun v => isnan v = false) col ->
  In (col_min col) col /\ Forall (fun v => leb (col_min col) v = true) col.
Proof.
  intros Hne H. unfold col_min. rewrite (dropna_id _ H).
  destruct col as [|x xs]; [contradiction|]. now apply fold_min2_spec.
Qed.

Lemma col_max_spec (col : list num) :
  col <> [] -> Forall (fun v => isnan v = false) col ->
  In (col_max col) col /\ Forall (fun v => leb v (col_max col) = true) col.
Proof.
  intros Hne H. unfold col_max. rewrite (dropna_id _ H).
  destruct col as [|x xs]; [contradiction|]. now apply fold_max2_spec.
Qed.

(** *** Rational facts behind the normalisation *)

Lemma this_plus (a b : Qc) : (this (a + b)%Qc == this a + this b)%Q.
Proof. apply Qred_correct. Qed.

Lemma this_opp (a : Qc) : (this (- a)%Qc == - this a)%Q.
Proof. apply Qred_correct. Qed.

Lemma this_minus (a b : Qc) : (this (a - b)%Qc == this a - this b)%Q.
Proof. unfold Qcminus. rewrite this_plus, this_opp. reflexivity. Qed.

Lemma this_mult (a b : Qc) : (this (a * b)%Qc == this a * this b)%Q.
Proof. apply Qred_correct. Qed.

Lemma this_inv (a : Qc) : (this (/ a)%Qc == / this a)%Q.
Proof. apply Qred_correct. Qed.

Lemma this_div (a b : Qc) : (this (a / b)%Qc == this a / this b)%Q.
Proof. unfold Qcdiv. rewrite this_mult, this_inv. reflexivity. Qed.

Lemma this_Qc0 : (this Qc0 == 0)%Q.
Proof. reflexivity. Qed.

Lemma this_Qc1 : (this (Q2Qc 1) == 1)%Q.
Proof. reflexivity. Qed.

(** Goals on the order of [Qc] become goals on [Q]. *)
Ltac qc_to_q :=
  unfold Qcle, Qclt in *;
  repeat (rewrite ?this_minus, ?this_plus, ?this_opp, ?this_div, ?this_mult,
            ?this_inv, ?this_Qc0, ?this_Qc1 in *).

Lemma Qc_div_range (a b : Qc) :
  (Qc0 <= a)%Qc -> (a <= b)%Qc -> (Qc0 < b)%Qc ->
  (Qc0 <= a / b)%Qc /\ (a / b <= Q2Qc 1)%Qc.
Proof.
  intros H0 Hab Hb. qc_to_q. split.
  - apply Qle_shift_div_l; [assumption|]. now rewrite Qmult_0_l.
  - apply Qle_shift_div_r; [assumption|]. now rewrite Qmult_1_l.
Qed.

Lemma Qc_sub_nonneg (a b : Qc) : (a <= b)%Qc -> (Qc0 <= b - a)%Qc.
Proof. intro H. qc_to_q. lra. Qed.

Lemma Qc_sub_pos (a b : Qc) : (a < b)%Qc -> (Qc0 < b - a)%Qc.
Proof. intro H. qc_to_q. lra. Qed.

Lemma Qc_sub_le (a b c : Qc) : (b <= c)%Qc -> (b - a <= c - a)%Qc.
Proof. intro H. qc_to_q. lra. Qed.

Lemma Qc_sub_diag (a : Qc) : (a - a)%Qc = Qc0.
Proof. unfold Qc0. ring. Qed.

(** Unfolding the order of [num] on finite cells. *)
Lemma leb_Fin (a b : Qc) : leb (Fin a) (Fin b) = true <-> (a <= b)%Qc.
Proof.
  unfold leb. simpl. rewrite orb_true_iff. split.
  - intros [H|H]; qc_bool.
    + now apply Qclt_le_weak.
    + subst. apply Qcle_refl.
  - intro H. apply Qcle_lt_or_eq in H. destruct H as [H|H].
    + left. now qc_bool.
    + right. now qc_bool.
Qed.

Lemma ltb_Fin (a b : Qc) : ltb (Fin a) (Fin b) = true <-> (a < b)%Qc.
Proof. simpl. apply Qc_ltb_lt. Qed.

Lemma finite_notnan (col : list num) :
  Forall (fun v => is_finite v = true) col ->
  Forall (fun v => isnan v = false) col.
Proof.
  apply Forall_impl. intros [ | | | ]; simpl; intros; congruence.
Qed.

(** ** The normalisation expression *)

(** A column whose cells are all the same: [min()] and [max()] coincide and
    the expression is [0 / 0] (or NaN already in the numerator). *)
Lemma min_max_norm_constant (col : list num) (v : num) :
  In v col -> (forall u, In u col -> u = v) -> min_max_norm col v = NaN.
Proof.
  intros Hin Hall. unfold min_max_norm.
  destruct (isnan v) eqn:Hv.
  - destruct v; try discriminate. reflexivity.
  - assert (Hne : col <> []) by (intro E; subst; contradiction).
    assert (Hnn : Forall (fun u => isnan u = false) col).
    { apply Forall_forall. intros u Hu. now rewrite (Hall u Hu). }
    destruct (col_min_spec col Hne Hnn) as [Hmin _].
    destruct (col_max_spec col Hne Hnn) as [Hmax _].
    rewrite (Hall _ Hmin), (Hall _ Hmax).
    destruct v; try discriminate; try reflexivity.
    unfold sub. simpl.
    change (q + - q)%Qc with (q - q)%Qc. rewrite Qc_sub_diag.
    now rewrite Qc_eqb_refl.
Qed.

(** A column of finite cells with [min() < max()]. *)
Lemma min_max_norm_finite (col : list num) (v : num) :
  Forall (fun u => is_finite u = true) col ->
  lt (col_min col) (col_max col) ->
  In v col ->
  exists m M q : Qc,
    col_min col = Fin m /\ col_max col = Fin M /\ v = Fin q /\
    (m <= q)%Qc /\ (q <= M)%Qc /\ (m < M)%Qc /\
    min_max_norm col v = Fin ((q - m) / (M - m))%Qc.
Proof.
  intros Hfin Hlt Hin.
  assert (Hne : col <> []) by (intro E; subst; contradiction).
  pose proof (finite_notnan _ Hfin) as Hnn.
  destruct (col_min_spec col Hne Hnn) as [Hmin Hle].
  destruct (col_max_spec col Hne Hnn) as [Hmax Hge].
  rewrite Forall_forall in Hfin, Hle, Hge.
  pose proof (Hfin _ Hmin) as Fm. pose proof (Hfin _ Hmax) as FM.
  pose proof (Hfin _ Hin) as Fv.
  pose proof (Hle _ Hin) as Lv. pose proof (Hge _ Hin) as Gv.
  unfold min_max_norm, lt in *.
  destruct (col_min col) as [m| | |]; try discriminate.
  destruct (col_max col) as [M| | |]; try discriminate.
  destruct v as [q| | |]; try discriminate.
  apply leb_Fin in Lv, Gv. apply ltb_Fin in Hlt.
  exists m, M, q. repeat split; try assumption.
  unfold sub. simpl.
  assert (Hpos : (Qc0 < M - m)%Qc) by now apply Qc_sub_pos.
  assert (Hz : Qc_eqb (M + - m) Qc0 = false).
  { qc_bool. intro E. change (M + - m)%Qc with (M - m)%Qc in E.
    rewrite E in Hpos. now apply Qclt_not_eq in Hpos. }
  now rewrite Hz.
Qed.

(** ** The sorts *)

Lemma score_before_total (a b : num) :
  score_before a b = false -> score_before b a = true.
Proof.
  unfold score_before. intro H.
  apply orb_false_iff in H. destruct H as [Hb H].
  destruct (isnan a) eqn:Ha; [reflexivity|]. simpl in *. rewrite Hb. simpl.
  destruct (ltb a b) eqn:L; [now apply ltb_leb|].
  pose proof (ltb_false_leb _ _ Ha Hb L). congruence.
Qed.

Lemma score_before_trans (a b c : num) :
  score_before a b = true -> score_before b c = true ->
  score_before a c = true.
Proof.
  unfold score_before. intros H1 H2.
  destruct (isnan c) eqn:Hc; [reflexivity|]. simpl in *.
  apply andb_true_iff in H2. destruct H2 as [Hb H2].
  apply negb_true_iff in Hb. rewrite Hb in H1. simpl in H1.
  apply andb_true_iff in H1. destruct H1 as [Ha H1].
  rewrite Ha. simpl. eapply leb_trans; eassumption.
Qed.

Lemma row_before_total (a b : Scored.t) :
  row_before a b = false -> row_before b a = true.
Proof. apply score_before_total. Qed.

Lemma row_before_trans (a b c : Scored.t) :
  row_before a b = true -> row_before b c = true -> row_before a c = true.
Proof. apply score_before_trans. Qed.

Section InsertionSort.

Variable goes_first : Scored.t -> Scored.t -> bool.

(** The test only ever puts [a] first when [a] may stand before [b], and
    only ever refuses when [b] may stand before [a]. *)
Hypothesis goes_first_sound :
  forall a b, goes_first a b = true -> row_before a b = true.
Hypothesis goes_first_refused :
  forall a b, goes_first a b = false -> row_before b a = true.

Lemma insert_by_perm (r : Scored.t) (l : list Scored.t) :
  Permutation (insert_by goes_first r l) (r :: l).
Proof.
  induction l as [|r' l IH]; simpl; [reflexivity|].
  destruct (goes_first r r'); [reflexivity|].
  rewrite IH. apply perm_swap.
Qed.

Lemma insertion_sort_perm (df : list Scored.t) :
  Permutation (insertion_sort goes_first df) df.
Proof.
  induction df as [|r df IH]; simpl; [reflexivity|].
  rewrite insert_by_perm. now constructor.
Qed.

Lemma insert_by_sorted (r : Scored.t) (l : list Scored.t) :
  StronglySorted (fun a b => row_before a b = true) l ->
  StronglySorted (fun a b => row_before a b = true)
    (insert_by goes_first r l).
Proof.
  induction 1 as [|r' l Hs IH Hall]; simpl.
  - repeat constructor.
  - destruct (goes_first r r') eqn:E.
    + constructor; [now constructor|].
      apply goes_first_sound in E. constructor; [assumption|].
      revert Hall. apply Forall_impl. intros c Hc.
      eapply row_before_trans; eassumption.
    + constructor; [assumption|].
      apply goes_first_refused in E.
      eapply Permutation_Forall.
      * symmetry. apply insert_by_perm.
      * now constructor.
Qed.

Lemma insertion_sort_sorted (df : list Scored.t) :
  StronglySorted (fun a b => row_before a b = true)
    (insertion_sort goes_first df).
Proof.
  induction df as [|r df IH]; simpl; [constructor|].
  now apply insert_by_sorted.
Qed.

Lemma insertion_sort_contract :
  sorts_by_score_desc (insertion_sort goes_first).
Proof.
  intro df. split;
    [apply insertion_sort_perm | apply insertion_sort_sorted].
Qed.

End InsertionSort.

Lemma sort_values_stable_contract : sorts_by_score_desc sort_values_stable.
Proof.
  apply insertion_sort_contract.
  - auto.
  - apply row_before_total.
Qed.

Lemma sort_values_ties_reversed_contract :
  sorts_by_score_desc sort_values_ties_reversed.
Proof.
  apply insertion_sort_contract; unfold strictly_before; intros a b H.
  - apply negb_true_iff in H. now apply row_before_total.
  - now apply negb_false_iff in H.
Qed.

(** Two rows with the same (non-NaN) score may stand in either order. *)
Lemma has_score_both (k : num) (a b : Scored.t) :
  has_score k a = true -> has_score k b = true -> row_before a b = true.
Proof.
  unfold has_score, row_before, score_before. intros Ha Hb.
  apply eqb_eq in Ha, Hb. rewrite Ha, Hb.
  destruct (isnan k) eqn:N; [reflexivity|]. simpl. now apply leb_refl.
Qed.

Lemma insert_by_row_before_filter (k : num) (r : Scored.t)
  (l : list Scored.t) :
  filter (has_score k) (insert_by row_before r l) =
  filter (has_score k) (r :: l).
Proof.
  induction l as [|r' l IH]; [reflexivity|].
  simpl insert_by. destruct (row_before r r') eqn:E; [reflexivity|].
  simpl filter in *. rewrite IH.
  destruct (has_score k r) eqn:Hr, (has_score k r') eqn:Hr'; try reflexivity.
  rewrite (has_score_both k r r' Hr Hr') in E. discriminate.
Qed.

Lemma sort_values_stable_is_stable : stable sort_values_stable.
Proof.
  intros df k. unfold sort_values_stable.
  induction df as [|r df IH]; [reflexivity|].
  simpl insertion_sort. rewrite insert_by_row_before_filter.
  simpl. now rewrite IH.
Qed.

(** ** The scorer *)

Lemma In_compute_product_scores (sort_values : sorter)
  (product_stats : list Stats.t) (w_t w_r : num) (r : Scored.t) :
  sorts_by_score_desc sort_values ->
  (In r (compute_product_scores sort_values product_stats w_t w_r) <->
   exists s, In s product_stats /\
             r = select_scored (work_row product_stats w_t w_r s)).
Proof.
  intros Hsort. unfold compute_product_scores, work_frame.
  destruct (Hsort (map select_scored
                     (map (work_row product_stats w_t w_r) product_stats)))
    as [Hperm _].
  split.
  - intro Hin. apply (Permutation_in _ Hperm) in Hin.
    apply in_map_iff in Hin. destruct Hin as [w [Hw Hin]].
    apply in_map_iff in Hin. destruct Hin as [s [Hs Hin]].
    exists s. subst. auto.
  - intros [s [Hin ->]].
    apply (Permutation_in _ (Permutation_sym Hperm)).
    apply in_map. now apply in_map.
Qed.

Lemma min_max_norm_range (col : list num) (v : num) :
  Forall (fun u => is_finite u = true) col ->
  lt (col_min col) (col_max col) ->
  In v col ->
  normalised_in_range col v (min_max_norm col v).
Proof.
  intros Hfin Hlt Hin.
  destruct (min_max_norm_finite col v Hfin Hlt Hin)
    as (m & M & q & Hm & HM & Hv & Hmq & HqM & HmM & Hn).
  assert (Hpos : (Qc0 < M - m)%Qc) by now apply Qc_sub_pos.
  assert (Hnz : (M - m)%Qc <> Qc0).
  { intro E. rewrite E in Hpos. now apply Qclt_not_eq in Hpos. }
  destruct (Qc_div_range (q - m) (M - m)) as [H0 H1];
    [now apply Qc_sub_nonneg | now apply Qc_sub_le | assumption |].
  unfold normalised_in_range. split; [reflexivity|].
  rewrite Hn. repeat split.
  - apply leb_Fin. exact H0.
  - apply leb_Fin. exact H1.
  - rewrite Hv, HM. intro E. inversion E; subst. unfold one. f_equal.
    unfold Qcdiv. now apply Qcmult_inv_r.
  - rewrite Hv, Hm. intro E. inversion E; subst. unfold zero. f_equal.
    rewrite Qc_sub_diag. unfold Qc0, Qcdiv. apply Qcmult_0_l.
Qed.

(** NaN in any of the three normalised cells makes the score NaN, whatever
    the weights. *)
Lemma score_expr_nan (w_t w_r pn tn rn : num) :
  pn = NaN \/ tn = NaN \/ rn = NaN -> score_expr w_t w_r pn tn rn = NaN.
Proof.
  unfold score_expr, sub.
  intros [-> | [-> | ->]].
  - reflexivity.
  - destruct w_t, pn; reflexivity.
  - destruct w_r; simpl; destruct (pn + - (w_t * tn)); reflexivity.
Qed.

(** The core of the monotonicity in the time weight. *)
Lemma Qc_mult_lt_pos (w w' t : Qc) :
  (w < w')%Qc -> (Qc0 < t)%Qc -> (w * t < w' * t)%Qc.
Proof. intros Hw Ht. now apply Qcmult_lt_compat_r. Qed.

Lemma score_expr_time_weight_finite (w w' : Qc) (w_r pn rn : num) (t : Qc) :
  (w < w')%Qc -> (Qc0 < t)%Qc ->
  ltb (score_expr (Fin w) w_r pn (Fin t) rn)
      (score_expr (Fin w') w_r pn (Fin t) rn) = false.
Proof.
  intros Hw Ht. unfold score_expr.
  generalize (w_r * rn). intro b.
  pose proof (Qc_mult_lt_pos _ _ _ Hw Ht) as Hm.
  destruct pn as [p| | |], b as [b| | |]; try reflexivity.
  unfold sub. simpl. qc_bool. qc_to_q. lra.
Qed.

Lemma score_expr_time_weight_inf (w w' : Qc) (w_r pn rn : num) :
  (w < w')%Qc ->
  ltb (score_expr (Fin w) w_r pn PInf rn)
      (score_expr (Fin w') w_r pn PInf rn) = false.
Proof.
  intros Hw. unfold score_expr.
  generalize (w_r * rn). intro b.
  unfold sub, mul, signed_inf.
  destruct (Qc_eqb w Qc0) eqn:E0, (Qc_eqb w' Qc0) eqn:E0',
           (Qc_ltb Qc0 w) eqn:L, (Qc_ltb Qc0 w') eqn:L';
    destruct pn as [p| | |], b as [b| | |]; try reflexivity;
    exfalso; qc_bool; subst; qc_to_q; lra.
Qed.

Lemma score_expr_time_weight (w w' : Qc) (w_r pn tn rn : num) :
  (w < w')%Qc -> lt zero tn ->
  ltb (score_expr (Fin w) w_r pn tn rn)
      (score_expr (Fin w') w_r pn tn rn) = false.
Proof.
  intros Hw Ht. unfold lt in Ht.
  destruct tn as [t| | |]; try discriminate.
  - apply score_expr_time_weight_finite; [assumption|].
    now apply ltb_Fin in Ht.
  - now apply score_expr_time_weight_inf.
Qed.

Lemma score_expr_time_zero (w w' : Qc) (w_r pn rn : num) :
  score_expr (Fin w') w_r pn zero rn = score_expr (Fin w) w_r pn zero rn.
Proof.
  unfold score_expr, zero. simpl.
  now rewrite !Qcmult_0_r.
Qed.

(** ** Order of names *)

Lemma name_lt_trans (a b c : string) :
  name_lt a b -> name_lt b c -> name_lt a c.
Proof.
  unfold name_lt. intros H1 H2.
  apply String_as_OT.cmp_lt in H1, H2. apply String_as_OT.cmp_lt.
  eapply String_as_OT.lt_trans; eassumption.
Qed.

Lemma StronglySorted_filter {A : Type} (R : A -> A -> Prop)
  (f : A -> bool) (l : list A) :
  StronglySorted R l -> StronglySorted R (filter f l).
Proof.
  induction 1 as [|a l Hs IH Hall]; simpl; [constructor|].
  destruct (f a); [|assumption].
  constructor; [assumption|].
  apply Forall_forall. intros x Hx. apply filter_In in Hx.
  rewrite Forall_forall in Hall. now apply Hall.
Qed.


Lemma StronglySorted_map {A B : Type} (R : B -> B -> Prop) (f : A -> B)
  (l : list A) :
  StronglySorted R (map f l) ->
  StronglySorted (fun a b => R (f a) (f b)) l.
Proof.
  induction l as [|a l IH]; simpl; intro H; [constructor|].
  inversion H as [|? ? Hs Hall]; subst.
  constructor; [now apply IH|].
  rewrite Forall_forall in *. intros x Hx. apply Hall. now apply in_map.
Qed.

Lemma scored_names (product_stats : list Stats.t) (w_t w_r : num) :
  map Scored.product_name
    (map select_scored (work_frame product_stats w_t w_r)) =
  map Stats.product_name product_stats.
Proof.
  unfold work_frame. rewrite !map_map. reflexivity.
Qed.

(** ** The aggregation cell *)

Lemma name_lt_of_Gt (a b : string) : String.compare a b = Gt -> name_lt b a.
Proof.
  unfold name_lt. intro H. rewrite String.compare_antisym, H. reflexivity.
Qed.

Lemma In_insert_key (k k' : string) (ks : list string) :
  In k' (insert_key k ks) <-> k' = k \/ In k' ks.
Proof.
  induction ks as [|a ks IH]; simpl.
  - intuition.
  - destruct (String.compare k a) eqn:E; simpl.
    + apply String.compare_eq_iff in E. subst. intuition.
    + intuition.
    + rewrite IH. intuition.
Qed.

Lemma insert_key_sorted (k : string) (ks : list string) :
  StronglySorted name_lt ks -> StronglySorted name_lt (insert_key k ks).
Proof.
  induction 1 as [|a ks Hs IH Hall]; simpl.
  - repeat constructor.
  - destruct (String.compare k a) eqn:E.
    + now constructor.
    + constructor; [now constructor|].
      constructor; [exact E|].
      revert Hall. apply Forall_impl. intros c Hc.
      eapply name_lt_trans; eassumption.
    + constructor; [assumption|].
      apply Forall_forall. intros c Hc. apply In_insert_key in Hc.
      destruct Hc as [->|Hc].
      * now apply name_lt_of_Gt.
      * rewrite Forall_forall in Hall. now apply Hall.
Qed.

Lemma group_keys_sorted (df : list Rec.t) :
  StronglySorted name_lt (group_keys df).
Proof.
  unfold group_keys. induction (map Rec.product_name df) as [|k ks IH]; simpl.
  - constructor.
  - now apply insert_key_sorted.
Qed.

Lemma In_group_keys (df : list Rec.t) (k : string) :
  In k (group_keys df) <-> exists r, In r df /\ Rec.product_name r = k.
Proof.
  unfold group_keys. induction df as [|r df IH]; simpl.
  - split; [contradiction | intros [r [[] _]]].
  - rewrite In_insert_key, IH. split.
    + intros [->|[r' [Hin Hk]]]; [exists r; auto | exists r'; auto].
    + intros [r' [[->|Hin] Hk]]; [left; auto | right; exists r'; auto].
Qed.

Lemma In_group (df : list Rec.t) (k : string) (r : Rec.t) :
  In r (group df k) <-> In r df /\ Rec.product_name r = k.
Proof.
  unfold group. rewrite filter_In. now rewrite String.eqb_eq.
Qed.

Lemma product_stats_names (df : list Rec.t) :
  map Stats.product_name (product_stats df) = group_keys df.
Proof.
  unfold product_stats. rewrite map_map. simpl. apply map_id.
Qed.


Lemma In_product_stats (df : list Rec.t) (row : Stats.t) :
  In row (product_stats df) ->
  row = stats_row df (Stats.product_name row) /\
  exists r, In r df /\ Rec.product_name r = Stats.product_name row.
Proof.
  unfold product_stats. intro H. apply in_map_iff in H.
  destruct H as [k [<- Hk]]. simpl. split; [reflexivity|].
  now apply In_group_keys.
Qed.

(** [mean] on finite cells is the arithmetic mean: the sum over the count. *)
Lemma sum_finite_from (qs : list Qc) : forall a : Qc,
  fold_left add (map Fin qs) (Fin a) = Fin (fold_left Qcplus qs a).
Proof.
  induction qs as [|q qs IH]; intro a; simpl; [reflexivity|]. apply IH.
Qed.

Lemma mean_nonempty (l : list num) :
  l <> [] -> Forall (fun v => isnan v = false) l ->
  mean l = sum l / ofZ (Z.of_nat (List.length l)).
Proof.
  intros Hne H. unfold mean. rewrite (dropna_id _ H).
  destruct l; [contradiction | reflexivity].
Qed.

Lemma this_Q2Qc (x : Q) : (this (Q2Qc x) == x)%Q.
Proof. apply Qred_correct. Qed.

Lemma count_nonzero (n : nat) :
  Qc_eqb (Q2Qc (inject_Z (Z.of_nat (S n)))) Qc0 = false.
Proof.
  qc_bool. intro E. apply (f_equal this) in E.
  assert (H : (this (Q2Qc (inject_Z (Z.of_nat (S n)))) == 0)%Q)
    by (rewrite E; reflexivity).
  rewrite this_Q2Qc in H.
  unfold Qeq, inject_Z in H. simpl Qnum in H. simpl Qden in H. lia.
Qed.

Lemma mean_finite (q : Qc) (qs : list Qc) :
  mean (map Fin (q :: qs)) =
  Fin (fold_left Qcplus (q :: qs) Qc0 /
       Q2Qc (inject_Z (Z.of_nat (List.length (q :: qs)))))%Qc.
Proof.
  rewrite mean_nonempty.
  - unfold sum, zero. rewrite sum_finite_from, length_map.
    unfold ofZ, div. simpl List.length. now rewrite count_nonzero.
  - discriminate.
  - apply Forall_forall. intros v Hv. apply in_map_iff in Hv.
    destruct Hv as [x [<- _]]. reflexivity.
Qed.

(** Division by a zero cell and sums with a non-finite term are never
    finite. *)
Lemma div_zero_not_finite (x : num) : is_finite (x / zero) = false.
Proof.
  destruct x as [a| | |]; try reflexivity.
  unfold div, zero. change (Q2Qc 0) with Qc0. rewrite Qc_eqb_refl.
  destruct (Qc_eqb a Qc0), (Qc_ltb Qc0 a); reflexivity.
Qed.

Lemma add_not_finite_r (x y : num) :
  is_finite y = false -> is_finite (x + y) = false.
Proof. destruct x, y; simpl; intros; congruence. Qed.

(** ** Statements about the aggregation cell *)

(** C9: for every row of [product_stats], with [g] the orders of that
    product (a non-empty group: exactly the input orders that carry the
    row's name), [resource] is
    mean material quantity * mean material unit cost
    + (mean labor hours * mean labor hourly cost) / mean actual quantity
    + (mean energy kWh * mean energy unit cost) / mean actual quantity. *)
Theorem resource_is_cost_expression_of_means (df : list Rec.t)
  (row : Stats.t) :
  In row (product_stats df) ->
  let g := group df (Stats.product_name row) in
  g <> [] /\
  (forall r, In r g <->
             In r df /\ Rec.product_name r = Stats.product_name row) /\
  Stats.resource row =
    mean (map Rec.material_qty_used g) *
    mean (map Rec.material_cost_per_unit g) +
    (mean (map Rec.labor_hours g) * mean (map Rec.labor_cost_per_hour g)) /
    mean (map Rec.actual_quantity g) +
    (mean (map Rec.energy_kwh g) * mean (map Rec.energy_cost_per_kwh g)) /
    mean (map Rec.actual_quantity g).
Proof.
  intros Hin g.
  destruct (In_product_stats df row Hin) as [Hrow [r [Hr Hname]]].
  split; [|split].
  - intro E. assert (Hg : In r g) by (apply In_group; auto).
    rewrite E in Hg. contradiction.
  - intro r'. apply In_group.
  - subst g. generalize dependent (Stats.product_name row).
    intros k -> _. reflexivity.
Qed.

Lemma resource_is_cost_expression_of_means_witness :
  exists row, In row (product_stats sample_orders) /\
    Stats.product_name row = "Bolt" /\
    eqb (Stats.resource row) (ofZ 7) = true /\
    Stats.resource row =
      mean (map Rec.material_qty_used (group sample_orders "Bolt")) *
      mean (map Rec.material_cost_per_unit (group sample_orders "Bolt")) +
      (mean (map Rec.labor_hours (group sample_orders "Bolt")) *
       mean (map Rec.labor_cost_per_hour (group sample_orders "Bolt"))) /
      mean (map Rec.actual_quantity (group sample_orders "Bolt")) +
      (mean (map Rec.energy_kwh (group sample_orders "Bolt")) *
       mean (map Rec.energy_cost_per_kwh (group sample_orders "Bolt"))) /
      mean (map Rec.actual_quantity (group sample_orders "Bolt")).
Proof.
  exists (stats_row sample_orders "Bolt").
  assert (Hin : In (stats_row sample_orders "Bolt")
                  (product_stats sample_orders))
    by (right; left; reflexivity).
  split; [exact Hin|]. split; [reflexivity|]. split; [vm_compute; reflexivity|].
  exact (proj2 (proj2
    (resource_is_cost_expression_of_means sample_orders _ Hin))).
Defined.

(** C4, as stated, fails: on zero orders the aggregation returns the empty
    table, and the product whose mean actual quantity is zero is kept,
    with an infinite resource. *)
Lemma aggregation_has_no_error_path :
  product_stats [] = [] /\
  exists row, In row (product_stats idle_orders) /\
    Stats.product_name row = "Dud" /\
    eqb (Stats.actual_quantity row) zero = true /\
    Stats.resource row = PInf.
Proof.
  split; [reflexivity|].
  exists (stats_row idle_orders "Dud").
  split; [right; left; reflexivity|].
  split; [reflexivity|]. split; vm_compute; reflexivity.
Qed.

(** C4, amended: on zero orders the aggregation returns the empty table;
    no product is left out of the table; and a product whose mean actual
    quantity is zero has a resource that is not a finite number (an
    infinity or NaN). *)
Theorem zero_quantity_group_kept_not_finite :
  product_stats [] = [] /\
  (forall df r, In r df ->
     exists row, In row (product_stats df) /\
                 Stats.product_name row = Rec.product_name r) /\
  (forall df row, In row (product_stats df) ->
     eqb (Stats.actual_quantity row) zero = true ->
     is_finite (Stats.resource row) = false).
Proof.
  split; [reflexivity|]. split.
  - intros df r Hr. exists (stats_row df (Rec.product_name r)).
    split; [|reflexivity].
    unfold product_stats. apply in_map. apply In_group_keys. eauto.
  - intros df row Hin Hz. apply eqb_eq in Hz.
    destruct (In_product_stats df row Hin) as [Hrow _].
    rewrite Hrow in Hz |- *. simpl in Hz |- *.
    unfold resource_cost. rewrite Hz.
    apply add_not_finite_r. apply div_zero_not_finite.
Qed.

Lemma zero_quantity_group_kept_not_finite_witness :
  is_finite (Stats.resource (stats_row idle_orders "Dud")) = false.
Proof.
  apply (proj2 (proj2 zero_quantity_group_kept_not_finite) idle_orders).
  - right; left; reflexivity.
  - vm_compute; reflexivity.
Defined.

(** ** Statements about the scoring cell *)

(** C1, as stated, fails: the two products of [same_time_orders] have the
    same time (max == min), and their normalised time is NaN, not 0. *)
Lemma constant_column_norm_is_not_zero :
  let stats := product_stats same_time_orders in
  eqb (col_max (map Stats.time stats)) (col_min (map Stats.time stats))
    = true /\
  Forall (fun r => time_norm stats r = NaN /\ time_norm stats r <> zero)
    stats.
Proof.
  intro stats. split; [vm_compute; reflexivity|].
  repeat (apply Forall_cons; [split|]); try apply Forall_nil;
    vm_compute; (reflexivity || discriminate).
Qed.

(** C1, amended: if every product has the identical value for a metric,
    the normalised value of that metric is NaN (the quotient 0/0) for
    every product, and so is the score, for all weight settings; no guard
    puts 0 in its place. *)
Theorem constant_column_norm_is_nan (product_stats : list Stats.t)
  (w_t w_r : num) (r : Stats.t) :
  In r product_stats ->
  let w := work_row product_stats w_t w_r r in
  ((forall s, In s product_stats -> Stats.profit s = Stats.profit r) ->
   Work.profit_norm w = NaN /\ Work.score w = NaN) /\
  ((forall s, In s product_stats -> Stats.time s = Stats.time r) ->
   Work.time_norm w = NaN /\ Work.score w = NaN) /\
  ((forall s, In s product_stats -> Stats.resource s = Stats.resource r) ->
   Work.resource_norm w = NaN /\ Work.score w = NaN).
Proof.
  intros Hin w.
  assert (Hcol : forall f : Stats.t -> num,
            (forall s, In s product_stats -> f s = f r) ->
            min_max_norm (map f product_stats) (f r) = NaN).
  { intros f Hall. apply min_max_norm_constant.
    - now apply in_map.
    - intros u Hu. apply in_map_iff in Hu. destruct Hu as [s [<- Hs]].
      now apply Hall. }
  split; [|split]; intro Hall;
    (split; [now apply Hcol | apply score_expr_nan]).
  - left. now apply Hcol.
  - right. left. now apply Hcol.
  - right. right. now apply Hcol.
Qed.

Lemma constant_column_norm_is_nan_witness :
  let stats := product_stats same_time_orders in
  let w := work_row stats one one (stats_row same_time_orders "Cog") in
  Work.time_norm w = NaN /\ Work.score w = NaN.
Proof.
  intros stats w.
  refine (proj1 (proj2
    (constant_column_norm_is_nan stats one one
       (stats_row same_time_orders "Cog") _)) _).
  - right; left; reflexivity.
  - intros s [<-|[<-|[]]]; vm_compute;
      apply (f_equal Fin), Qc_is_canon; reflexivity.
Defined.

(** C5: every row of the scorer's output comes from a row [w] of the
    working frame, whose three normalised cells are the min-max
    expressions at the product's own profit, time and resource, and its
    score is profit_norm - w_t * time_norm - w_r * resource_norm for the
    weights of the call. *)
Theorem score_is_weighted_difference (sort_values : sorter)
  (product_stats : list Stats.t) (w_t w_r : num) (r : Scored.t) :
  sorts_by_score_desc sort_values ->
  In r (compute_product_scores sort_values product_stats w_t w_r) ->
  exists w, In w (work_frame product_stats w_t w_r) /\
    r = select_scored w /\
    Work.profit_norm w =
      min_max_norm (map Stats.profit product_stats) (Scored.profit r) /\
    Work.time_norm w =
      min_max_norm (map Stats.time product_stats) (Scored.time r) /\
    Work.resource_norm w =
      min_max_norm (map Stats.resource product_stats) (Scored.resource r) /\
    Scored.score r =
      Work.profit_norm w - w_t * Work.time_norm w
      - w_r * Work.resource_norm w.
Proof.
  intros Hsort Hin.
  apply (In_compute_product_scores _ _ _ _ _ Hsort) in Hin.
  destruct Hin as [s [Hs ->]].
  exists (work_row product_stats w_t w_r s).
  split; [unfold work_frame; now apply in_map|].
  repeat split.
Qed.

Lemma score_is_weighted_difference_witness :
  let stats := product_stats sample_orders in
  let r := select_scored (work_row stats one one
                            (stats_row sample_orders "Cog")) in
  exists w, In w (work_frame stats one one) /\
    r = select_scored w /\
    Work.profit_norm w =
      min_max_norm (map Stats.profit stats) (Scored.profit r) /\
    Work.time_norm w =
      min_max_norm (map Stats.time stats) (Scored.time r) /\
    Work.resource_norm w =
      min_max_norm (map Stats.resource stats) (Scored.resource r) /\
    Scored.score r =
      Work.profit_norm w - one * Work.time_norm w
      - one * Work.resource_norm w.
Proof.
  intros stats r.
  apply (score_is_weighted_difference sort_values_stable stats one one r
           sort_values_stable_contract).
  apply (In_compute_product_scores _ _ _ _ _ sort_values_stable_contract).
  exists (stats_row sample_orders "Cog").
  split; [right; right; left; reflexivity | reflexivity].
Defined.

(** C6, as stated, fails: in the table of [idle_orders] the resource
    column has max > min, its maximum is the infinite resource of Dud, and
    the normalised resource of Dud is NaN (inf / inf), not 1. *)
Lemma infinite_maximum_norm_is_nan :
  let stats := product_stats idle_orders in
  let dud := stats_row idle_orders "Dud" in
  In dud stats /\
  ltb (col_min (map Stats.resource stats))
      (col_max (map Stats.resource stats)) = true /\
  eqb (Stats.resource dud) (col_max (map Stats.resource stats)) = true /\
  resource_norm stats dud = NaN /\
  resource_norm stats dud <> one.
Proof.
  intros stats dud.
  split; [right; left; reflexivity|].
  repeat split; try (vm_compute; reflexivity).
  vm_compute. discriminate.
Qed.

(** C6, amended: for each of the three metric columns, when its cells are
    finite numbers, max > min and the span max - min is within the range
    of float64, the normalised value of every product is
    (value - min) / (max - min), lies between 0 and 1, is exactly 1 for a
    product at the column maximum and exactly 0 for one at the column
    minimum.  (The bound on the span is what keeps the notebook's float64
    subtraction from overflowing to inf; the exact arithmetic of this
    model does not need it.) *)
Theorem norm_in_unit_interval (product_stats : list Stats.t)
  (r : Stats.t) :
  In r product_stats ->
  (Forall (fun v => is_finite v = true) (map Stats.profit product_stats) ->
   lt (col_min (map Stats.profit product_stats))
      (col_max (map Stats.profit product_stats)) ->
   span_fits_float64 (map Stats.profit product_stats) ->
   normalised_in_range (map Stats.profit product_stats) (Stats.profit r)
     (profit_norm product_stats r)) /\
  (Forall (fun v => is_finite v = true) (map Stats.time product_stats) ->
   lt (col_min (map Stats.time product_stats))
      (col_max (map Stats.time product_stats)) ->
   span_fits_float64 (map Stats.time product_stats) ->
   normalised_in_range (map Stats.time product_stats) (Stats.time r)
     (time_norm product_stats r)) /\
  (Forall (fun v => is_finite v = true) (map Stats.resource product_stats) ->
   lt (col_min (map Stats.resource product_stats))
      (col_max (map Stats.resource product_stats)) ->
   span_fits_float64 (map Stats.resource product_stats) ->
   normalised_in_range (map Stats.resource product_stats) (Stats.resource r)
     (resource_norm product_stats r)).
Proof.
  intro Hin. split; [|split]; intros Hfin Hlt _;
    apply min_max_norm_range; try assumption; now apply in_map.
Qed.

Lemma norm_in_unit_interval_witness :
  let stats := product_stats sample_orders in
  normalised_in_range (map Stats.resource stats)
    (Stats.resource (stats_row sample_orders "Bolt"))
    (resource_norm stats (stats_row sample_orders "Bolt")).
Proof.
  intro stats.
  apply (proj2 (proj2 (norm_in_unit_interval stats
                         (stats_row sample_orders "Bolt") 
                         (or_intror (or_introl eq_refl))))).
  - repeat constructor.
  - vm_compute; reflexivity.
  - vm_compute; reflexivity.
Defined.







(** C8: for one table, one resource weight and two time weights
    [w_t < w_t'], every product has its row in both outputs; if its
    normalised time is above 0 its score under [w_t'] is not greater than
    its score under [w_t], and if its normalised time is 0 the two scores
    are the same. *)
Theorem time_weight_monotone (sort_values : sorter)
  (product_stats : list Stats.t) (w_t w_t' : Qc) (w_r : num) (s : Stats.t) :
  sorts_by_score_desc sort_values ->
  In s product_stats ->
  (w_t < w_t')%Qc ->
  let r := select_scored (work_row product_stats (Fin w_t) w_r s) in
  let r' := select_scored (work_row product_stats (Fin w_t') w_r s) in
  In r (compute_product_scores sort_values product_stats (Fin w_t) w_r) /\
  In r' (compute_product_scores sort_values product_stats (Fin w_t') w_r) /\
  (lt zero (time_norm product_stats s) ->
   ltb (Scored.score r) (Scored.score r') = false) /\
  (time_norm product_stats s = zero ->
   Scored.score r' = Scored.score r).
Proof.
  intros Hsort Hin Hw r r'.
  split; [|split; [|split]].
  - apply (In_compute_product_scores _ _ _ _ _ Hsort). now exists s.
  - apply (In_compute_product_scores _ _ _ _ _ Hsort). now exists s.
  - intro Ht. simpl. now apply score_expr_time_weight.
  - intro Ht. simpl. rewrite Ht. apply score_expr_time_zero.
Qed.

Lemma time_weight_monotone_witness :
  let stats := product_stats sample_orders in
  let cog := stats_row sample_orders "Cog" in
  ltb (Scored.score (select_scored (work_row stats one one cog)))
      (Scored.score (select_scored (work_row stats (ofZ 2) one cog)))
    = false.
Proof.
  intros stats cog.
  refine (proj1 (proj2 (proj2
    (time_weight_monotone sort_values_stable stats (Q2Qc 1)
       (Q2Qc (inject_Z 2)) one cog sort_values_stable_contract _ _))) _).
  - right; right; left; reflexivity.
  - reflexivity.
  - vm_compute; reflexivity.
Defined.

(** With a finite normalised time and a score that is a number, the score
    under the larger weight is below or equal. *)
Lemma score_expr_isnan_time_weight (w w' : Qc) (w_r pn rn : num) (t : Qc) :
  isnan (score_expr (Fin w') w_r pn (Fin t) rn) =
  isnan (score_expr (Fin w) w_r pn (Fin t) rn).
Proof.
  unfold score_expr. generalize (w_r * rn). intro b.
  destruct pn, b; reflexivity.
Qed.

Lemma time_weight_monotone_le (product_stats : list Stats.t)
  (w_t w_t' : Qc) (w_r : num) (s : Stats.t) :
  (w_t < w_t')%Qc ->
  lt zero (time_norm product_stats s) ->
  is_finite (time_norm product_stats s) = true ->
  isnan (Work.score (work_row product_stats (Fin w_t) w_r s)) = false ->
  le (Work.score (work_row product_stats (Fin w_t') w_r s))
     (Work.score (work_row product_stats (Fin w_t) w_r s)).
Proof.
  intros Hw Ht Hfin Hnan. simpl in *.
  pose proof (score_expr_time_weight w_t w_t' w_r
                (profit_norm product_stats s) _
                (resource_norm product_stats s) Hw Ht) as Hnot.
  destruct (time_norm product_stats s) as [t| | |]; try discriminate.
  apply ltb_false_leb; try assumption.
  now rewrite (score_expr_isnan_time_weight w_t w_t').
Qed.

(** ** Statements about the allocation cell *)

(** An exception of the solver is not caught. *)
Lemma solver_exception_propagates (sort_values : sorter) (linprog : solver)
  (product_stats : list Stats.t) (w_t w_r T_max R_max : num) (e : string) :
  call_linprog linprog
    (compute_product_scores sort_values product_stats w_t w_r)
    T_max R_max = Raises e ->
  optimize_production sort_values linprog product_stats w_t w_r
    T_max R_max = Raises e.
Proof. intro Hcall. unfold optimize_production. now rewrite Hcall. Qed.

(** The objective handed to the solver has a NaN wherever a score is
    NaN, and a solver that checks its input refuses it. *)
Lemma nan_score_is_refused (inner : solver) (data : list Scored.t)
  (T_max R_max : num) :
  existsb (fun r => isnan (Scored.score r)) data = true ->
  call_linprog (linprog_validating inner) data T_max R_max =
  Raises "ValueError".
Proof.
  intro H. unfold call_linprog, linprog_validating.
  replace (forallb is_finite (map (fun r => - Scored.score r) data))
    with false; [reflexivity|].
  symmetry. induction data as [|r data IH]; [discriminate|].
  cbn [existsb] in H. cbn [map forallb].
  destruct (isnan (Scored.score r)) eqn:E.
  - destruct (Scored.score r); try discriminate. reflexivity.
  - cbn [orb] in H. rewrite (IH H). apply andb_false_r.
Qed.

(** C2, as stated, fails: the two products of [same_time_orders] have the
    same time, so every score is NaN; the solver refuses the objective
    with ValueError, and the allocator, which has no [try], raises it
    instead of returning a failure value. *)
Lemma nan_scores_make_the_allocator_raise :
  let stats := product_stats same_time_orders in
  map Scored.score
    (compute_product_scores sort_values_stable stats one one) =
  [NaN; NaN] /\
  optimize_production sort_values_stable
    (linprog_validating (reporting 2 "The problem is infeasible."))
    stats one one (ofZ 10) (ofZ 10) =
  Raises "ValueError".
Proof. split; vm_compute; reflexivity. Qed.

(** C2, amended: when [linprog] returns a result with [success = False]
    (infeasible problem or any other failure it reports), the allocator
    returns the failure value: not feasible, the diagnostic
    ["Optimization failed: "] followed by the solver's message, and no
    quantities at all.  When [linprog] raises, the allocator raises the
    same exception: nothing catches it.  That happens for one on every
    table with a NaN score, which the solver's input check refuses. *)
Theorem failure_is_reported_exception_is_raised (sort_values : sorter)
  (linprog : solver) (product_stats : list Stats.t)
  (w_t w_r T_max R_max : num) :
  let data := compute_product_scores sort_values product_stats w_t w_r in
  (forall result,
     call_linprog linprog data T_max R_max = Returns result ->
     Opt.success result = false ->
     exists a,
       optimize_production sort_values linprog product_stats w_t w_r
         T_max R_max = Returns a /\
       feasible a = false /\
       diagnostic a =
         Some ("Optimization failed: " ++ Opt.message result)%string /\
       quantities a = None) /\
  (forall e,
     call_linprog linprog data T_max R_max = Raises e ->
     optimize_production sort_values linprog product_stats w_t w_r
       T_max R_max = Raises e) /\
  (existsb (fun r => isnan (Scored.score r)) data = true ->
   optimize_production sort_values (linprog_validating linprog)
     product_stats w_t w_r T_max R_max = Raises "ValueError").
Proof.
  intro data. split; [|split].
  - intros result Hcall Hfail. unfold optimize_production. fold data.
    rewrite Hcall, Hfail. eexists. repeat split.
  - intros e Hcall. now apply solver_exception_propagates.
  - intro Hnan. apply solver_exception_propagates. fold data.
    now apply nan_score_is_refused.
Qed.

Lemma failure_is_reported_exception_is_raised_witness :
  (exists a,
    optimize_production sort_values_stable
      (reporting 2 "The problem is infeasible.")
      (product_stats sample_orders) one one (ofZ (-1)) (ofZ 10)
      = Returns a /\
    feasible a = false /\
    diagnostic a =
      Some "Optimization failed: The problem is infeasible." /\
    quantities a = None) /\
  optimize_production sort_values_stable
    (linprog_validating (reporting 2 "The problem is infeasible."))
    (product_stats same_time_orders) one one (ofZ 10) (ofZ 10) =
  Raises "ValueError".
Proof.
  split.
  - exact (proj1 (failure_is_reported_exception_is_raised
             sort_values_stable
             (reporting 2 "The problem is infeasible.")
             (product_stats sample_orders) one one (ofZ (-1)) (ofZ 10))
           _ eq_refl eq_refl).
  - refine (proj2 (proj2 (failure_is_reported_exception_is_raised
             sort_values_stable
             (reporting 2 "The problem is infeasible.")
             (product_stats same_time_orders) one one (ofZ 10) (ofZ 10)))
           _).
    vm_compute; reflexivity.
Defined.

(** C3, as stated, fails: the table of [free_orders] has a product with
    time 0, resource 0 and a positive score, and the allocator's answer
    when the solver reports status 3 (unbounded) is the very answer it
    gives when the solver reports status 2 (infeasible). *)
Lemma unbounded_not_told_apart :
  let stats := product_stats free_orders in
  existsb free_and_positive
    (compute_product_scores sort_values_stable stats one one) = true /\
  optimize_production sort_values_stable (reporting 3 "failed")
    stats one one (ofZ 10) (ofZ 10) =
  optimize_production sort_values_stable (reporting 2 "failed")
    stats one one (ofZ 10) (ofZ 10) /\
  optimize_production sort_values_stable (reporting 3 "failed")
    stats one one (ofZ 10) (ofZ 10) =
  Returns (Failed "Optimization failed: failed").
Proof.
  intro stats. split; [vm_compute; reflexivity|].
  split; reflexivity.
Qed.

(** C3, amended: the allocator has no check of its own for a product with
    time 0, resource 0 and a positive score.  On such an input its answer
    is decided by the solver's result: on [success = False] it is the
    string ["Optimization failed: "] followed by the solver's message, the
    same return path as for an infeasible problem (the status code is not
    read), and on [success = True] with one quantity per product it is the
    table of rounded quantities. *)
Theorem unbounded_answer_is_the_solver_message (sort_values : sorter)
  (linprog : solver) (product_stats : list Stats.t)
  (w_t w_r T_max R_max : num) (result : Opt.result) :
  let data := compute_product_scores sort_values product_stats w_t w_r in
  existsb free_and_positive data = true ->
  call_linprog linprog data T_max R_max = Returns result ->
  (Opt.success result = false ->
   optimize_production sort_values linprog product_stats w_t w_r
     T_max R_max =
   Returns (Failed ("Optimization failed: " ++ Opt.message result))) /\
  (Opt.success result = true ->
   List.length (Opt.x result) = List.length data ->
   optimize_production sort_values linprog product_stats w_t w_r
     T_max R_max =
   Returns (Recommended (map2 plan_row data (Opt.x result)))).
Proof.
  intros data _ Hcall. unfold optimize_production. fold data.
  rewrite Hcall. split.
  - intros ->. reflexivity.
  - intros -> Hlen. apply Nat.eqb_eq in Hlen. now rewrite Hlen.
Qed.

Lemma unbounded_answer_is_the_solver_message_witness :
  optimize_production sort_values_stable
    (reporting 3 "The problem is unbounded.")
    (product_stats free_orders) one one (ofZ 10) (ofZ 10) =
  Returns (Failed "Optimization failed: The problem is unbounded.").
Proof.
  refine (proj1 (unbounded_answer_is_the_solver_message sort_values_stable
           (reporting 3 "The problem is unbounded.")
           (product_stats free_orders) one one (ofZ 10) (ofZ 10)
           _ _ eq_refl) eq_refl).
  vm_compute; reflexivity.
Defined.

(** [np.round] on a few halves and non-halves. *)
Example round_half_even_samples :
  map round_astype_int
    [ofQ (1 # 2); ofQ (3 # 2); ofQ (5 # 2); ofQ (-1 # 2); ofQ (-3 # 2);
     ofQ (12 # 5); ofQ (13 # 5); ofZ 7] =
  [0; 2; 2; 0; -2; 2; 3; 7]%Z.
Proof. vm_compute. reflexivity. Qed.

(** The cast to int64 of a quantity beyond int64, or of one that is not
    finite, gives the least int64. *)
Example round_astype_int_out_of_range :
  map round_astype_int [ofZ (2 ^ 63); ofZ (- 2 ^ 63 - 1); PInf; NInf; NaN] =
  [int64_min; int64_min; int64_min; int64_min; int64_min] /\
  map round_astype_int [ofZ (2 ^ 63 - 1); ofZ (- 2 ^ 63)] =
  [int64_max; int64_min].
Proof. split; vm_compute; reflexivity. Qed.

(** ** The scoring cell over the store *)

Lemma update_app_ge {A : Type} (l1 l2 : list A) (a : A) : forall i,
  (List.length l1 <= i)%nat ->
  update i a (l1 ++ l2) = l1 ++ update (i - List.length l1) a l2.
Proof.
  induction l1 as [|b l1 IH]; intros i Hi; simpl.
  - now rewrite Nat.sub_0_r.
  - destruct i as [|i]; simpl in Hi; [lia|].
    simpl. f_equal. apply IH. lia.
Qed.

Lemma update_last {A : Type} (l : list A) (a b : A) :
  update (List.length l) b (l ++ [a]) = l ++ [b].
Proof.
  rewrite update_app_ge by lia. now rewrite Nat.sub_diag.
Qed.

Lemma nth_error_last {A : Type} (l : list A) (a : A) :
  nth_error (l ++ [a]) (List.length l) = Some a.
Proof.
  rewrite nth_error_app2 by lia. now rewrite Nat.sub_diag.
Qed.

Section FrameRule.

Variable h0 : store.

Lemma keeps_ret {A : Type} (a : A) (Q : A -> Prop) :
  Q a -> keeps h0 (ret a) Q.
Proof.
  intros Ha t. exists t. split; [reflexivity|].
  intros a' E. inversion E. now subst.
Qed.

Lemma keeps_raise {A : Type} (e : string) (Q : A -> Prop) :
  keeps h0 (raise e) Q.
Proof.
  intros t. exists t. split; [reflexivity|]. intros a E. discriminate.
Qed.

Lemma keeps_bind {A B : Type} (m : M A) (k : A -> M B)
  (Q : A -> Prop) (R : B -> Prop) :
  keeps h0 m Q -> (forall a, Q a -> keeps h0 (k a) R) ->
  keeps h0 (bind m k) R.
Proof.
  intros Hm Hk t. unfold bind.
  destruct (Hm t) as [t1 [Hs Hq]].
  destruct (m (h0 ++ t)) as [[a|e] h1]; simpl in Hs; subst h1.
  - apply (Hk a (Hq a eq_refl)).
  - exists t1. split; [reflexivity|]. intros b E. discriminate.
Qed.

Lemma keeps_load (l : loc) : keeps h0 (load l) (fun _ => True).
Proof.
  intros t. exists t. unfold load.
  destruct (nth_error (h0 ++ t) l); simpl; auto.
Qed.

Lemma keeps_alloc (f : Frame.t) : keeps h0 (alloc f) (fresh_for h0).
Proof.
  intros t. exists (t ++ [f]). unfold alloc. simpl. split.
  - now rewrite app_assoc.
  - intros a E. inversion E. unfold fresh_for.
    rewrite length_app. lia.
Qed.

Lemma keeps_copy (l : loc) : keeps h0 (copy l) (fresh_for h0).
Proof.
  unfold copy. eapply keeps_bind; [apply keeps_load|].
  intros f _. apply keeps_alloc.
Qed.

Lemma keeps_get_col (l : loc) (c : string) :
  keeps h0 (get_col l c) (fun _ => True).
Proof.
  unfold get_col. eapply keeps_bind; [apply keeps_load|].
  intros f _. destruct (Frame.get c (Frame.columns f)).
  - now apply keeps_ret.
  - apply keeps_raise.
Qed.

(** A column assignment to a frame that is not one of [h0]. *)
Lemma keeps_set_col (l : loc) (c : string) (v : list num) :
  fresh_for h0 l -> keeps h0 (set_col l c v) (fun _ => True).
Proof.
  intro Hl. unfold set_col. eapply keeps_bind; [apply keeps_load|].
  intros f _ t. eexists. simpl. split; [|auto].
  now apply update_app_ge.
Qed.

Lemma keeps_select (l : loc) (cs : list string) :
  keeps h0 (select l cs) (fresh_for h0).
Proof.
  unfold select. eapply keeps_bind; [apply keeps_load|].
  intros f _. destruct (pick cs (Frame.columns f)).
  - apply keeps_alloc.
  - apply keeps_raise.
Qed.

Lemma keeps_sort_values_by_score (sort_values : sorter) (l : loc) :
  keeps h0 (sort_values_by_score sort_values l) (fresh_for h0).
Proof.
  unfold sort_values_by_score. eapply keeps_bind; [apply keeps_load|].
  intros f _.
  destruct (Frame.get "profit" (Frame.columns f));
    [|apply keeps_raise].
  destruct (Frame.get "time" (Frame.columns f));
    [|apply keeps_raise].
  destruct (Frame.get "resource" (Frame.columns f));
    [|apply keeps_raise].
  destruct (Frame.get "score" (Frame.columns f));
    [|apply keeps_raise].
  apply keeps_alloc.
Qed.

Lemma keeps_compute_product_scores_st (sort_values : sorter)
  (product_stats : loc) (w_t w_r : num) :
  keeps h0 (compute_product_scores_st sort_values product_stats w_t w_r)
    (fresh_for h0).
Proof.
  unfold compute_product_scores_st.
  eapply keeps_bind; [apply keeps_copy|]. intros df Hdf.
  repeat (eapply keeps_bind;
          [first [ apply keeps_get_col
                 | apply keeps_set_col; exact Hdf
                 | apply keeps_select ]
          | intros ? ?]).
  apply keeps_sort_values_by_score.
Qed.

End FrameRule.

(** Whatever the store and whether the call returns or raises, every frame
    that was in the store before the call is unchanged after it. *)
Lemma compute_product_scores_st_frame (sort_values : sorter) (h : store)
  (product_stats : loc) (w_t w_r : num) (q : loc) (f : Frame.t) :
  nth_error h q = Some f ->
  nth_error
    (snd (compute_product_scores_st sort_values product_stats w_t w_r h)) q
    = Some f.
Proof.
  intro Hq.
  destruct (keeps_compute_product_scores_st h sort_values product_stats
              w_t w_r []) as [t' [Hs _]].
  rewrite app_nil_r in Hs. rewrite Hs.
  rewrite nth_error_app1; [assumption|].
  apply nth_error_Some. congruence.
Qed.

(** *** The call, step by step *)

Lemma bind_run {A B : Type} (m : M A) (k : A -> M B) (h h' : store) (a : A) :
  m h = (Returns a, h') -> bind m k h = k a h'.
Proof. intro E. unfold bind. now rewrite E. Qed.

Lemma load_run (h : store) (l : loc) (f : Frame.t) :
  nth_error h l = Some f -> load l h = (Returns f, h).
Proof. intro E. unfold load. now rewrite E. Qed.

Lemma copy_run (h : store) (l : loc) (f : Frame.t) :
  nth_error h l = Some f -> copy l h = (Returns (List.length h), h ++ [f]).
Proof.
  intro E. unfold copy. now rewrite (bind_run _ _ _ _ _ (load_run _ _ _ E)).
Qed.

Lemma get_col_run (h : store) (l : loc) (f : Frame.t) (c : string)
  (v : list num) :
  nth_error h l = Some f -> Frame.get c (Frame.columns f) = Some v ->
  get_col l c h = (Returns v, h).
Proof.
  intros E G. unfold get_col.
  rewrite (bind_run _ _ _ _ _ (load_run _ _ _ E)). now rewrite G.
Qed.

Lemma set_col_run (h : store) (f : Frame.t) (c : string) (v : list num) :
  set_col (List.length h) c v (h ++ [f]) =
  (Returns tt,
   h ++ [ {| Frame.names := Frame.names f;
             Frame.columns := Frame.set c v (Frame.columns f) |} ]).
Proof.
  unfold set_col.
  rewrite (bind_run _ _ _ _ _ (load_run _ _ _ (nth_error_last h f))).
  now rewrite update_last.
Qed.

Lemma select_run (h : store) (l : loc) (f : Frame.t) (cs : list string)
  (cols : list (string * list num)) :
  nth_error h l = Some f -> pick cs (Frame.columns f) = Some cols ->
  select l cs h =
  (Returns (List.length h),
   h ++ [ {| Frame.names := Frame.names f; Frame.columns := cols |} ]).
Proof.
  intros E P. unfold select.
  rewrite (bind_run _ _ _ _ _ (load_run _ _ _ E)). now rewrite P.
Qed.

Lemma sort_values_by_score_run (sort_values : sorter) (h : store) (l : loc)
  (ns : list string) (p t r s : list num) :
  nth_error h l =
    Some {| Frame.names := ns;
            Frame.columns := [("profit", p); ("time", t);
                              ("resource", r); ("score", s)] |} ->
  sort_values_by_score sort_values l h =
  (Returns (List.length h),
   h ++ [frame_of_scored (sort_values (zip_scored ns p t r s))]).
Proof.
  intro E. unfold sort_values_by_score.
  now rewrite (bind_run _ _ _ _ _ (load_run _ _ _ E)).
Qed.

(** Columns of one table, cell by cell. *)
Lemma map2_map {A B C D : Type} (g : B -> C -> D) (f1 : A -> B)
  (f2 : A -> C) (l : list A) :
  map2 g (map f1 l) (map f2 l) = map (fun a => g (f1 a) (f2 a)) l.
Proof. induction l as [|a l IH]; simpl; [reflexivity|]. now rewrite IH. Qed.

Lemma zip_scored_map {A : Type} (f0 : A -> string) (f1 f2 f3 f4 : A -> num)
  (l : list A) :
  zip_scored (map f0 l) (map f1 l) (map f2 l) (map f3 l) (map f4 l) =
  map (fun a => Scored.mk (f0 a) (f1 a) (f2 a) (f3 a) (f4 a)) l.
Proof. induction l as [|a l IH]; simpl; [reflexivity|]. now rewrite IH. Qed.

Lemma norm_col_map {A : Type} (f : A -> num) (l : list A) :
  norm_col (map f l) = map (fun a => min_max_norm (map f l) (f a)) l.
Proof. unfold norm_col. now rewrite map_map. Qed.

Lemma score_col_stats (product_stats : list Stats.t) (w_t w_r : num) :
  score_col w_t w_r
    (norm_col (map Stats.profit product_stats))
    (norm_col (map Stats.time product_stats))
    (norm_col (map Stats.resource product_stats)) =
  map (fun r => Work.score (work_row product_stats w_t w_r r)) product_stats.
Proof.
  unfold score_col. rewrite !norm_col_map, !map_map.
  rewrite map2_map, map2_map. reflexivity.
Qed.

(** The call on a store that holds a [product_stats] table: it returns
    the location of a new frame, which holds the rows of the pure scorer;
    the store is the old store followed by the working copy, the selection
    and the result. *)
Lemma compute_product_scores_st_run (sort_values : sorter) (h : store)
  (p : loc) (rows : list Stats.t) (w_t w_r : num) :
  nth_error h p = Some (frame_of_stats rows) ->
  compute_product_scores_st sort_values p w_t w_r h =
  (Returns (S (S (List.length h))),
   h ++ [ work_frame_of_stats rows w_t w_r;
          frame_of_scored (map select_scored (work_frame rows w_t w_r));
          frame_of_scored
            (compute_product_scores sort_values rows w_t w_r) ]).
Proof.
  intro Hp. unfold compute_product_scores_st.
  rewrite (bind_run _ _ _ _ _ (copy_run _ _ _ Hp)).
  repeat
    (first
       [ erewrite bind_run by
           (eapply get_col_run; [apply nth_error_last | reflexivity])
       | erewrite bind_run by apply set_col_run ]; cbn [Frame.set Frame.names Frame.columns frame_of_stats String.eqb Ascii.eqb Bool.eqb]).
  erewrite bind_run by
    (eapply select_run; [apply nth_error_last | reflexivity]).
  cbn [Frame.names].
  erewrite sort_values_by_score_run by apply nth_error_last.
  rewrite !length_app. simpl List.length.
  replace (List.length h + 1 + 1)%nat with (S (S (List.length h))) by lia.
  rewrite <- !app_assoc. simpl app.
  rewrite score_col_stats.
  unfold compute_product_scores, work_frame_of_stats, frame_of_scored,
    work_frame.
  rewrite !map_map. cbn [select_scored Work.base Scored.product_name
    Scored.profit Scored.time Scored.resource Scored.score
    frame_of_stats Frame.names Frame.columns app].
  rewrite zip_scored_map.
  repeat f_equal.
Qed.

(** C10: on a store where the global [product_stats] names a frame that
    holds a summary table, a call of the scorer returns a new frame with
    the scores of that table, and leaves the table (names, profit, time,
    resource and the other columns) and every other frame of the store as
    they were; so a later call with other weights scores the same
    table. *)
Theorem scoring_leaves_product_stats_unchanged (sort_values : sorter)
  (h : store) (p : loc) (rows : list Stats.t) (w_t w_r : num) :
  nth_error h p = Some (frame_of_stats rows) ->
  exists l h',
    compute_product_scores_st sort_values p w_t w_r h = (Returns l, h') /\
    nth_error h' l =
      Some (frame_of_scored
              (compute_product_scores sort_values rows w_t w_r)) /\
    nth_error h' p = Some (frame_of_stats rows) /\
    (forall q f, nth_error h q = Some f -> nth_error h' q = Some f) /\
    (forall w_t' w_r', exists l2 h2,
       compute_product_scores_st sort_values p w_t' w_r' h'
         = (Returns l2, h2) /\
       nth_error h2 l2 =
         Some (frame_of_scored
                 (compute_product_scores sort_values rows w_t' w_r'))).
Proof.
  intro Hp.
  assert (Hres : forall (h1 : store) a b c,
            nth_error (h1 ++ [a; b; c]) (S (S (List.length h1))) = Some c).
  { intros h1 a b c. rewrite nth_error_app2 by lia.
    replace (S (S (List.length h1)) - List.length h1)%nat with 2%nat by lia.
    reflexivity. }
  assert (Hold : forall (h1 t : store) q f,
            nth_error h1 q = Some f -> nth_error (h1 ++ t) q = Some f).
  { intros h1 t q f Hq. rewrite nth_error_app1; [assumption|].
    apply nth_error_Some. congruence. }
  do 2 eexists.
  split; [exact (compute_product_scores_st_run _ _ _ rows _ _ Hp)|].
  split; [apply Hres|]. split; [now apply Hold|].
  split; [intros q f; apply Hold|].
  intros w_t' w_r'. do 2 eexists.
  split; [apply (compute_product_scores_st_run _ _ _ rows); now apply Hold|].
  apply Hres.
Qed.

Lemma scoring_leaves_product_stats_unchanged_witness :
  let table := frame_of_stats (product_stats sample_orders) in
  exists l h',
    compute_product_scores_st sort_values_stable 0%nat one one [table]
      = (Returns l, h') /\
    nth_error h' 0%nat = Some table.
Proof.
  intro table.
  destruct (scoring_leaves_product_stats_unchanged sort_values_stable
              [table] 0%nat (product_stats sample_orders) one one eq_refl)
    as (l & h' & Hrun & _ & Hp & _).
  exists l, h'. split; assumption.
Defined.

(** With [df = product_stats] in place of the copy, the same statements
    do change the table: it ends with four more columns. *)
Lemma aliased_scoring_changes_product_stats :
  let table := frame_of_stats (product_stats sample_orders) in
  let h' := snd (compute_product_scores_aliased sort_values_stable 0%nat
                   one one [table]) in
  option_map (fun f => map fst (Frame.columns f)) (nth_error h' 0%nat) =
  Some (map fst (Frame.columns table) ++
        ["profit_norm"; "time_norm"; "resource_norm"; "score"]).
Proof. vm_compute. reflexivity. Qed.

(** * Further properties of the cells *)

(** ** The aggregation cell: groups and means *)

Lemma name_lt_irrefl (s : string) : ~ name_lt s s.
Proof.
  unfold name_lt. intro H. apply String_as_OT.cmp_lt in H.
  apply String_as_OT.lt_not_eq in H. now apply H.
Qed.

Lemma StronglySorted_name_lt_NoDup (ks : list string) :
  StronglySorted name_lt ks -> NoDup ks.
Proof.
  induction 1 as [|k ks Hs IH Hall]; constructor; [|assumption].
  intro Hin. rewrite Forall_forall in Hall.
  now apply (name_lt_irrefl k), Hall.
Qed.

Lemma insert_key_length (k : string) (ks : list string) :
  (List.length (insert_key k ks) <= S (List.length ks))%nat.
Proof.
  induction ks as [|a ks IH]; simpl; [lia|].
  destruct (String.compare k a); simpl; lia.
Qed.

Lemma group_keys_length (df : list Rec.t) :
  (List.length (group_keys df) <= List.length df)%nat.
Proof.
  unfold group_keys. induction df as [|r df IH]; simpl; [lia|].
  pose proof (insert_key_length (Rec.product_name r)
                (fold_right insert_key [] (map Rec.product_name df))).
  lia.
Qed.

(** The table has one row per product name of the orders: the names come
    in strictly ascending order, none twice, a name is in the table
    exactly when some order carries it, and there are no more rows than
    orders. *)
Theorem product_stats_one_row_per_product (df : list Rec.t) :
  let names := map Stats.product_name (product_stats df) in
  StronglySorted name_lt names /\
  NoDup names /\
  (forall k, In k names <-> exists r, In r df /\ Rec.product_name r = k) /\
  (List.length (product_stats df) <= List.length df)%nat.
Proof.
  intro names. subst names. rewrite product_stats_names.
  split; [apply group_keys_sorted|].
  split; [apply StronglySorted_name_lt_NoDup, group_keys_sorted|].
  split; [intro k; apply In_group_keys|].
  unfold product_stats. rewrite length_map. apply group_keys_length.
Qed.

(** *** Means *)

Lemma dropna_finite_values (l : list num) :
  Forall (fun v => nan_or_finite v = true) l ->
  dropna l = map Fin (finite_values l).
Proof.
  induction 1 as [|v l Hv _ IH]; [reflexivity|].
  unfold dropna in *. destruct v; simpl in *; try discriminate;
    rewrite IH; reflexivity.
Qed.

Lemma dropna_idem (l : list num) : dropna (dropna l) = dropna l.
Proof. apply dropna_id, dropna_notnan. Qed.

Lemma mean_dropna (l : list num) : mean (dropna l) = mean l.
Proof. unfold mean. now rewrite dropna_idem. Qed.

Lemma this_Qc_of_nat_S (n : nat) :
  (this (Qc_of_nat (S n)) == this (Qc_of_nat n) + 1)%Q.
Proof.
  unfold Qc_of_nat. rewrite !this_Q2Qc, Nat2Z.inj_succ.
  unfold Z.succ. now rewrite inject_Z_plus.
Qed.

Lemma this_Qc_of_nat_0 : (this (Qc_of_nat 0) == 0)%Q.
Proof. reflexivity. Qed.

Lemma Qc_of_nat_pos (n : nat) : (Qc0 < Qc_of_nat (S n))%Qc.
Proof.
  unfold Qclt. rewrite this_Qc0.
  induction n as [|n IH].
  - reflexivity.
  - rewrite this_Qc_of_nat_S. lra.
Qed.


(** The mean of a column whose cells are missing or finite, with at
    least one finite cell: the sum of the finite cells over their
    count. *)
Lemma mean_of_finite_values (l : list num) (q : Qc) (qs : list Qc) :
  Forall (fun v => nan_or_finite v = true) l ->
  finite_values l = q :: qs ->
  mean l =
  Fin (fold_left Qcplus (q :: qs) Qc0 / Qc_of_nat (S (List.length qs)))%Qc.
Proof.
  intros Hl Hq. rewrite <- mean_dropna, (dropna_finite_values _ Hl), Hq.
  apply mean_finite.
Qed.



Lemma Qc_leb_le (a b : Qc) : Qc_leb a b = true <-> (a <= b)%Qc.
Proof.
  unfold Qc_leb. rewrite Qcle_alt.
  destruct (Qccompare a b); intuition congruence.
Qed.






(** *** Sign of the resource cost *)

Lemma is_nonneg_Fin (v : num) :
  is_nonneg v = true <-> exists q, v = Fin q /\ (Qc0 <= q)%Qc.
Proof.
  destruct v as [q| | |]; simpl; split; intro H; try discriminate.
  - exists q. split; [reflexivity|]. now apply Qc_leb_le.
  - destruct H as [q' [E Hq]]. inversion E; subst. now apply Qc_leb_le.
  - destruct H as [q' [E _]]. discriminate.
  - destruct H as [q' [E _]]. discriminate.
  - destruct H as [q' [E _]]. discriminate.
Qed.

Lemma is_positive_Fin (v : num) :
  is_positive v = true <-> exists q, v = Fin q /\ (Qc0 < q)%Qc.
Proof.
  destruct v as [q| | |]; simpl; split; intro H; try discriminate.
  - exists q. split; [reflexivity|]. now qc_bool.
  - destruct H as [q' [E Hq]]. inversion E; subst. now qc_bool.
  - destruct H as [q' [E _]]. discriminate.
  - destruct H as [q' [E _]]. discriminate.
  - destruct H as [q' [E _]]. discriminate.
Qed.

Lemma mul_nonneg (x y : num) :
  is_nonneg x = true -> is_nonneg y = true -> is_nonneg (x * y) = true.
Proof.
  intros Hx Hy. apply is_nonneg_Fin in Hx, Hy.
  destruct Hx as [a [-> Ha]], Hy as [b [-> Hb]].
  apply is_nonneg_Fin. exists (a * b)%Qc. split; [reflexivity|].
  qc_to_q. now apply Qmult_le_0_compat.
Qed.

Lemma add_nonneg (x y : num) :
  is_nonneg x = true -> is_nonneg y = true -> is_nonneg (x + y) = true.
Proof.
  intros Hx Hy. apply is_nonneg_Fin in Hx, Hy.
  destruct Hx as [a [-> Ha]], Hy as [b [-> Hb]].
  apply is_nonneg_Fin. exists (a + b)%Qc. split; [reflexivity|].
  qc_to_q. lra.
Qed.

Lemma div_nonneg_positive (x y : num) :
  is_nonneg x = true -> is_positive y = true -> is_nonneg (x / y) = true.
Proof.
  intros Hx Hy. apply is_nonneg_Fin in Hx. apply is_positive_Fin in Hy.
  destruct Hx as [a [-> Ha]], Hy as [b [-> Hb]].
  apply is_nonneg_Fin. exists (a / b)%Qc. split.
  - unfold div. assert (Hz : Qc_eqb b Qc0 = false).
    { qc_bool. intro E. subst. now apply Qclt_not_eq in Hb. }
    now rewrite Hz.
  - qc_to_q. apply Qle_shift_div_l; [assumption|]. lra.
Qed.

Lemma finite_values_map_Fin (l : list num) :
  Forall (fun v => is_finite v = true) l ->
  map Fin (finite_values l) = l.
Proof.
  induction 1 as [|v l Hv _ IH]; [reflexivity|].
  destruct v; try discriminate. simpl. now rewrite IH.
Qed.

Lemma fold_sum_ge (qs : list Qc) : forall a : Qc,
  Forall (fun q => (Qc0 <= q)%Qc) qs -> (a <= fold_left Qcplus qs a)%Qc.
Proof.
  induction qs as [|x qs IH]; intros a H; [apply Qcle_refl|].
  inversion H as [|? ? Hx Hrest]; subst. cbn [fold_left].
  eapply Qcle_trans; [|apply IH; assumption].
  qc_to_q. lra.
Qed.

Lemma fold_sum_pos (qs : list Qc) (a : Qc) :
  Forall (fun q => (Qc0 < q)%Qc) qs ->
  (Qc0 <= a)%Qc -> qs <> [] -> (Qc0 < fold_left Qcplus qs a)%Qc.
Proof.
  intros H Ha Hne. destruct qs as [|q qs]; [contradiction|].
  inversion H as [|? ? Hq Hrest]; subst. cbn [fold_left].
  assert (Hlow : (a + q <= fold_left Qcplus qs (a + q))%Qc).
  { apply fold_sum_ge. revert Hrest. apply Forall_impl.
    intros x Hx. now apply Qclt_le_weak. }
  qc_to_q. lra.
Qed.

Lemma mean_nonneg (l : list num) :
  l <> [] -> Forall (fun v => is_nonneg v = true) l ->
  is_nonneg (mean l) = true.
Proof.
  intros Hne H.
  assert (Hfin : Forall (fun v => is_finite v = true) l).
  { revert H. apply Forall_impl. intros [ | | | ]; simpl; congruence. }
  assert (Hnf : Forall (fun v => nan_or_finite v = true) l).
  { revert Hfin. apply Forall_impl. intros v Hv. unfold nan_or_finite.
    rewrite Hv. apply orb_true_r. }
  assert (Hq : finite_values l <> []).
  { intro E. apply Hne. rewrite <- (finite_values_map_Fin l Hfin), E.
    reflexivity. }
  destruct (finite_values l) as [|q qs] eqn:E; [contradiction|].
  assert (Hall : Forall (fun x => (Qc0 <= x)%Qc) (q :: qs)).
  { rewrite <- (finite_values_map_Fin l Hfin), E in H.
    apply Forall_forall. intros x Hx. rewrite Forall_forall in H.
    specialize (H (Fin x) (in_map Fin _ _ Hx)).
    apply is_nonneg_Fin in H. destruct H as [x' [Ex Hx']].
    inversion Ex. now subst. }
  rewrite (mean_of_finite_values l q qs Hnf E).
  apply is_nonneg_Fin. eexists. split; [reflexivity|].
  assert (Hs : (Qc0 <= fold_left Qcplus (q :: qs) Qc0)%Qc)
    by now apply fold_sum_ge.
  pose proof (Qc_of_nat_pos (List.length qs)) as Hn.
  set (S0 := fold_left Qcplus (q :: qs) Qc0) in *.
  set (n := Qc_of_nat (S (List.length qs))) in *.
  clearbody S0 n. qc_to_q.
  apply Qle_shift_div_l; [assumption|]. lra.
Qed.

Lemma mean_positive (l : list num) :
  l <> [] -> Forall (fun v => is_positive v = true) l ->
  is_positive (mean l) = true.
Proof.
  intros Hne H.
  assert (Hfin : Forall (fun v => is_finite v = true) l).
  { revert H. apply Forall_impl. intros [ | | | ]; simpl; congruence. }
  assert (Hnf : Forall (fun v => nan_or_finite v = true) l).
  { revert Hfin. apply Forall_impl. intros v Hv. unfold nan_or_finite.
    rewrite Hv. apply orb_true_r. }
  assert (Hq : finite_values l <> []).
  { intro E. apply Hne. rewrite <- (finite_values_map_Fin l Hfin), E.
    reflexivity. }
  destruct (finite_values l) as [|q qs] eqn:E; [contradiction|].
  assert (Hall : Forall (fun x => (Qc0 < x)%Qc) (q :: qs)).
  { rewrite <- (finite_values_map_Fin l Hfin), E in H.
    apply Forall_forall. intros x Hx. rewrite Forall_forall in H.
    specialize (H (Fin x) (in_map Fin _ _ Hx)).
    apply is_positive_Fin in H. destruct H as [x' [Ex Hx']].
    inversion Ex. now subst. }
  rewrite (mean_of_finite_values l q qs Hnf E).
  apply is_positive_Fin. eexists. split; [reflexivity|].
  assert (Hs : (Qc0 < fold_left Qcplus (q :: qs) Qc0)%Qc).
  { apply fold_sum_pos; [assumption | apply Qcle_refl | discriminate]. }
  pose proof (Qc_of_nat_pos (List.length qs)) as Hn.
  set (S0 := fold_left Qcplus (q :: qs) Qc0) in *.
  set (n := Qc_of_nat (S (List.length qs))) in *.
  clearbody S0 n. qc_to_q.
  apply Qlt_shift_div_l; [assumption|]. lra.
Qed.

Lemma nonneg_and_safe_nonneg (v : num) :
  nonneg_and_safe v = true -> is_nonneg v = true.
Proof.
  unfold nonneg_and_safe. intro H. now apply andb_true_iff in H.
Qed.

Lemma at_least_one_positive (v : num) :
  at_least_one_and_safe v = true -> is_positive v = true.
Proof.
  destruct v as [q| | |]; try discriminate.
  cbn [at_least_one_and_safe is_positive]. intro H.
  apply andb_true_iff in H. destruct H as [H _].
  apply Qc_leb_le in H. apply Qc_ltb_lt.
  apply Qclt_le_trans with (y := Q2Qc 1); [reflexivity | exact H].
Qed.

Lemma costs_in_range_nonneg (r : Rec.t) :
  costs_and_quantity_in_range r = true ->
  costs_nonneg_quantity_positive r = true.
Proof.
  unfold costs_and_quantity_in_range, costs_nonneg_quantity_positive.
  intro H.
  repeat (apply andb_true_iff in H; destruct H as [H ?]).
  repeat (apply andb_true_iff; split);
    first [ assumption
          | now apply nonneg_and_safe_nonneg
          | now apply at_least_one_positive ].
Qed.

Lemma resource_nonneg (df : list Rec.t) (row : Stats.t) :
  In row (product_stats df) ->
  (forall r, In r df -> Rec.product_name r = Stats.product_name row ->
             costs_nonneg_quantity_positive r = true) ->
  is_nonneg (Stats.resource row) = true.
Proof.
  intros Hin Hall.
  destruct (In_product_stats df row Hin) as [Hrow [r0 [Hr0 Hn0]]].
  set (k := Stats.product_name row) in *.
  assert (Hg : group df k <> []).
  { intro E. assert (Hi : In r0 (group df k)) by (apply In_group; auto).
    rewrite E in Hi. contradiction. }
  assert (Hcells : forall r, In r (group df k) ->
            costs_nonneg_quantity_positive r = true).
  { intros r Hr. apply In_group in Hr. destruct Hr. now apply Hall. }
  assert (Hnn : forall (col : Rec.t -> num),
            (forall r, costs_nonneg_quantity_positive r = true ->
                       is_nonneg (col r) = true) ->
            is_nonneg (agg_mean col (group df k)) = true).
  { intros col Hcol. unfold agg_mean. apply mean_nonneg.
    - destruct (group df k); [contradiction | discriminate].
    - apply Forall_forall. intros v Hv. apply in_map_iff in Hv.
      destruct Hv as [r [<- Hr]]. apply Hcol. now apply Hcells. }
  assert (Hpos : is_positive (agg_mean Rec.actual_quantity (group df k))
                 = true).
  { unfold agg_mean. apply mean_positive.
    - destruct (group df k); [contradiction | discriminate].
    - apply Forall_forall. intros v Hv. apply in_map_iff in Hv.
      destruct Hv as [r [<- Hr]]. specialize (Hcells r Hr).
      unfold costs_nonneg_quantity_positive in Hcells.
      now repeat (apply andb_true_iff in Hcells; destruct Hcells as [Hcells ?]). }
  rewrite Hrow. cbn [stats_row Stats.resource]. unfold resource_cost.
  repeat first [ apply add_nonneg | apply div_nonneg_positive
               | apply mul_nonneg | exact Hpos ];
    apply Hnn; intros r Hr; unfold costs_nonneg_quantity_positive in Hr;
    repeat (apply andb_true_iff in Hr; destruct Hr as [Hr ?]); assumption.
Qed.

(** When every order of a product has usage and cost cells that are
    non-negative numbers of safe magnitude, and an actual quantity that
    is a number from 1 up to the safe magnitude, the product's
    [resource] is a non-negative number: neither NaN nor infinite.  (The
    bounds are what keeps the notebook's float64 products and quotients
    from overflowing to inf; the exact arithmetic of this model needs
    only the signs.) *)
Theorem resource_nonneg_for_quantity_at_least_one (df : list Rec.t)
  (row : Stats.t) :
  In row (product_stats df) ->
  (forall r, In r df -> Rec.product_name r = Stats.product_name row ->
             costs_and_quantity_in_range r = true) ->
  is_nonneg (Stats.resource row) = true.
Proof.
  intros Hin Hall. apply (resource_nonneg df row Hin).
  intros r Hr Hn. apply costs_in_range_nonneg. now apply Hall.
Qed.

Lemma resource_nonneg_for_quantity_at_least_one_witness :
  is_nonneg (Stats.resource (stats_row sample_orders "Bolt")) = true.
Proof.
  apply (resource_nonneg_for_quantity_at_least_one sample_orders).
  - right; left; reflexivity.
  - intros r [<-|[<-|[<-|[<-|[]]]]] E; try discriminate E;
      vm_compute; reflexivity.
Defined.

(** ** The scoring cell: rows, order and range *)

(** The scorer returns one row per product of the table, each with the
    product's own name, profit, time and resource: the rows are those of
    the table, reordered, with the score added. *)
Theorem scorer_keeps_products_and_metrics (sort_values : sorter)
  (product_stats : list Stats.t) (w_t w_r : num) :
  sorts_by_score_desc sort_values ->
  let out := compute_product_scores sort_values product_stats w_t w_r in
  Permutation (map metrics_of_scored out)
              (map metrics_of_stats product_stats) /\
  List.length out = List.length product_stats.
Proof.
  intros Hsort out. subst out. unfold compute_product_scores.
  set (rows := map select_scored (work_frame product_stats w_t w_r)).
  destruct (Hsort rows) as [Hperm _].
  assert (Hrows : map metrics_of_scored rows =
                  map metrics_of_stats product_stats).
  { unfold rows, work_frame. rewrite !map_map. reflexivity. }
  split.
  - rewrite <- Hrows. now apply Permutation_map.
  - rewrite (Permutation_length Hperm). unfold rows, work_frame.
    now rewrite !length_map.
Qed.

Lemma scorer_keeps_products_and_metrics_witness :
  List.length (compute_product_scores sort_values_stable
                 (product_stats sample_orders) one (ofZ 2)) = 3%nat.
Proof.
  exact (proj2 (scorer_keeps_products_and_metrics sort_values_stable
                  (product_stats sample_orders) one (ofZ 2)
                  sort_values_stable_contract)).
Defined.

(** The first row of the output has the best score: no row with a
    numeric score has a larger one, and if any row has a numeric score
    then so has the first. *)
Theorem first_row_has_best_score (sort_values : sorter)
  (product_stats : list Stats.t) (w_t w_r : num)
  (top : Scored.t) (rest : list Scored.t) (r : Scored.t) :
  sorts_by_score_desc sort_values ->
  compute_product_scores sort_values product_stats w_t w_r = top :: rest ->
  In r (top :: rest) ->
  isnan (Scored.score r) = false ->
  isnan (Scored.score top) = false /\
  le (Scored.score r) (Scored.score top).
Proof.
  intros Hsort Hout Hin Hr. unfold compute_product_scores in Hout.
  destruct (Hsort (map select_scored (work_frame product_stats w_t w_r)))
    as [_ Hsorted].
  rewrite Hout in Hsorted. inversion Hsorted as [|? ? _ Hall]; subst.
  destruct Hin as [<-|Hin].
  - split; [assumption | now apply leb_refl].
  - rewrite Forall_forall in Hall. specialize (Hall r Hin).
    unfold row_before, score_before in Hall. rewrite Hr in Hall.
    simpl in Hall. apply andb_true_iff in Hall. destruct Hall as [Ht Hle].
    split; [now apply negb_true_iff | exact Hle].
Qed.

Lemma first_row_has_best_score_witness :
  let stats := product_stats sample_orders in
  let row k := select_scored (work_row stats one one
                                (stats_row sample_orders k)) in
  isnan (Scored.score (row "Axle")) = false /\
  le (Scored.score (row "Cog")) (Scored.score (row "Axle")).
Proof.
  intros stats row.
  refine (first_row_has_best_score sort_values_stable stats one one
            (row "Axle") [row "Bolt"; row "Cog"] (row "Cog")
            sort_values_stable_contract _ _ _).
  - vm_compute; reflexivity.
  - right; right; left; reflexivity.
  - vm_compute; reflexivity.
Defined.

(** *** Normalisation keeps the order of a column *)

Lemma Qc_div_lt_iff (a b d : Qc) :
  (Qc0 < d)%Qc -> ((a / d < b / d)%Qc <-> (a < b)%Qc).
Proof.
  intro Hd. qc_to_q. unfold Qdiv.
  apply Qmult_lt_r. now apply Qinv_lt_0_compat.
Qed.

Lemma Qc_div_le_iff (a b d : Qc) :
  (Qc0 < d)%Qc -> ((a / d <= b / d)%Qc <-> (a <= b)%Qc).
Proof.
  intro Hd. qc_to_q. unfold Qdiv.
  apply Qmult_le_r. now apply Qinv_lt_0_compat.
Qed.

(** On a column of finite cells with max > min and a span within
    float64, normalisation never reverses the order of two cells: a
    cell that is not greater has a normalised value that is not greater,
    and a strictly smaller normalised value comes from a strictly smaller
    cell.  (In float64 two cells that are close can get the same
    normalised value; in the exact arithmetic of this model they do
    not.) *)
Theorem normalisation_never_reverses_order (col : list num) (v v' : num) :
  Forall (fun u => is_finite u = true) col ->
  lt (col_min col) (col_max col) ->
  span_fits_float64 col ->
  In v col -> In v' col ->
  (le v v' -> le (min_max_norm col v) (min_max_norm col v')) /\
  (lt (min_max_norm col v) (min_max_norm col v') -> lt v v').
Proof.
  intros Hfin Hlt _ Hv Hv'.
  destruct (min_max_norm_finite col v Hfin Hlt Hv)
    as (m & M & q & Hm & HM & -> & _ & _ & HmM & ->).
  destruct (min_max_norm_finite col v' Hfin Hlt Hv')
    as (m' & M' & q' & Hm' & HM' & -> & _ & _ & _ & ->).
  rewrite Hm in Hm'. rewrite HM in HM'.
  inversion Hm'; inversion HM'; subst m' M'.
  pose proof (Qc_sub_pos _ _ HmM) as Hd.
  unfold lt, le. rewrite !ltb_Fin, !leb_Fin.
  rewrite (Qc_div_lt_iff _ _ _ Hd), (Qc_div_le_iff _ _ _ Hd).
  split; intro H; qc_to_q; lra.
Qed.

Lemma normalisation_never_reverses_order_witness :
  let col := map Stats.time (product_stats sample_orders) in
  le (min_max_norm col (ofZ 3)) (min_max_norm col (ofZ 5)).
Proof.
  intro col.
  assert (H3 : In (ofZ 3) col).
  { left. vm_compute. apply (f_equal Fin), Qc_is_canon. reflexivity. }
  assert (H5 : In (ofZ 5) col).
  { right; right; left. vm_compute.
    apply (f_equal Fin), Qc_is_canon. reflexivity. }
  apply (proj1 (normalisation_never_reverses_order col (ofZ 3) (ofZ 5)
                  ltac:(repeat constructor) ltac:(vm_compute; reflexivity)
                  ltac:(vm_compute; reflexivity) H3 H5)).
  vm_compute; reflexivity.
Defined.

(** *** Range of the score *)

Lemma min_max_norm_unit (col : list num) (v : num) :
  Forall (fun u => is_finite u = true) col ->
  lt (col_min col) (col_max col) ->
  In v col ->
  exists p, min_max_norm col v = Fin p /\
            (Qc0 <= p)%Qc /\ (p <= Q2Qc 1)%Qc.
Proof.
  intros Hfin Hlt Hin.
  destruct (min_max_norm_finite col v Hfin Hlt Hin)
    as (m & M & q & _ & _ & _ & Hmq & HqM & HmM & Hn).
  exists ((q - m) / (M - m))%Qc. split; [assumption|].
  apply Qc_div_range;
    [now apply Qc_sub_nonneg | now apply Qc_sub_le | now apply Qc_sub_pos].
Qed.

Lemma Qc_score_bounds (p t r wt wr : Qc) :
  (Qc0 <= p)%Qc -> (p <= Q2Qc 1)%Qc ->
  (Qc0 <= t)%Qc -> (t <= Q2Qc 1)%Qc ->
  (Qc0 <= r)%Qc -> (r <= Q2Qc 1)%Qc ->
  (Qc0 <= wt)%Qc -> (Qc0 <= wr)%Qc ->
  (- (wt + wr) <= p - wt * t - wr * r)%Qc /\
  (p - wt * t - wr * r <= Q2Qc 1)%Qc.
Proof.
  intros. qc_to_q.
  assert (0 <= this wt * this t)%Q by now apply Qmult_le_0_compat.
  assert (0 <= this wr * this r)%Q by now apply Qmult_le_0_compat.
  assert (0 <= this wt * (1 - this t))%Q
    by (apply Qmult_le_0_compat; [assumption | lra]).
  assert (0 <= this wr * (1 - this r))%Q
    by (apply Qmult_le_0_compat; [assumption | lra]).
  split; lra.
Qed.

(** When the three metric columns hold finite numbers, none is constant
    and each has a span within float64, and the two weights are not
    negative, every score is a number (not NaN) between the score of a
    product with profit_norm 0, time_norm 1 and resource_norm 1, which is
    0 - w_t * 1 - w_r * 1, and 1. *)
Theorem score_between_worst_and_one (product_stats : list Stats.t)
  (w_t w_r : Qc) (s : Stats.t) :
  In s product_stats ->
  Forall (fun v => is_finite v = true) (map Stats.profit product_stats) ->
  Forall (fun v => is_finite v = true) (map Stats.time product_stats) ->
  Forall (fun v => is_finite v = true) (map Stats.resource product_stats) ->
  lt (col_min (map Stats.profit product_stats))
     (col_max (map Stats.profit product_stats)) ->
  lt (col_min (map Stats.time product_stats))
     (col_max (map Stats.time product_stats)) ->
  lt (col_min (map Stats.resource product_stats))
     (col_max (map Stats.resource product_stats)) ->
  span_fits_float64 (map Stats.profit product_stats) ->
  span_fits_float64 (map Stats.time product_stats) ->
  span_fits_float64 (map Stats.resource product_stats) ->
  (Qc0 <= w_t)%Qc -> (Qc0 <= w_r)%Qc ->
  let score := Work.score (work_row product_stats (Fin w_t) (Fin w_r) s) in
  le (score_expr (Fin w_t) (Fin w_r) zero one one) score /\
  le score one.
Proof.
  intros Hin Fp Ft Fr Lp Lt Lr _ _ _ Hwt Hwr.
  destruct (min_max_norm_unit _ (Stats.profit s) Fp Lp (in_map _ _ _ Hin))
    as (p & Hp & Hp0 & Hp1).
  destruct (min_max_norm_unit _ (Stats.time s) Ft Lt (in_map _ _ _ Hin))
    as (t & Ht & Ht0 & Ht1).
  destruct (min_max_norm_unit _ (Stats.resource s) Fr Lr (in_map _ _ _ Hin))
    as (r & Hr & Hr0 & Hr1).
  cbn [work_row Work.score]. unfold profit_norm, time_norm, resource_norm.
  rewrite Hp, Ht, Hr.
  destruct (Qc_score_bounds p t r w_t w_r Hp0 Hp1 Ht0 Ht1 Hr0 Hr1 Hwt Hwr)
    as [Hlo Hhi].
  unfold score_expr, zero, one, le.
  cbn [sub add opp mul]. rewrite !leb_Fin. split.
  - qc_to_q. rewrite ?this_Q2Qc. lra.
  - exact Hhi.
Qed.

Lemma score_between_worst_and_one_witness :
  let score := Work.score (work_row (product_stats sample_orders)
                  (Fin (Qc_of_Z 1)) (Fin (Qc_of_Z 2))
                  (stats_row sample_orders "Cog")) in
  le (score_expr (Fin (Qc_of_Z 1)) (Fin (Qc_of_Z 2)) zero one one) score /\
  le score one.
Proof.
  refine (score_between_worst_and_one (product_stats sample_orders)
            _ _ _ _ _ _ _ _ _ _ _ _ _ _ _).
  - right; right; left; reflexivity.
  - repeat constructor.
  - repeat constructor.
  - repeat constructor.
  - vm_compute; reflexivity.
  - vm_compute; reflexivity.
  - vm_compute; reflexivity.
  - vm_compute; reflexivity.
  - vm_compute; reflexivity.
  - vm_compute; reflexivity.
  - vm_compute; discriminate.
  - vm_compute; discriminate.
Defined.

(** *** The resource weight *)

Lemma score_expr_resource_weight_finite (w w' : Qc) (w_t pn tn : num)
  (r : Qc) :
  (w < w')%Qc -> (Qc0 < r)%Qc ->
  ltb (score_expr w_t (Fin w) pn tn (Fin r))
      (score_expr w_t (Fin w') pn tn (Fin r)) = false.
Proof.
  intros Hw Hr. unfold score_expr.
  generalize (pn - w_t * tn). intro a.
  pose proof (Qc_mult_lt_pos _ _ _ Hw Hr) as Hm.
  destruct a as [a| | |]; try reflexivity.
  unfold sub. simpl. qc_bool. qc_to_q. lra.
Qed.

Lemma score_expr_resource_weight_inf (w w' : Qc) (w_t pn tn : num) :
  (w < w')%Qc ->
  ltb (score_expr w_t (Fin w) pn tn PInf)
      (score_expr w_t (Fin w') pn tn PInf) = false.
Proof.
  intros Hw. unfold score_expr.
  generalize (pn - w_t * tn). intro a.
  unfold sub, mul, signed_inf.
  destruct (Qc_eqb w Qc0) eqn:E0, (Qc_eqb w' Qc0) eqn:E0',
           (Qc_ltb Qc0 w) eqn:L, (Qc_ltb Qc0 w') eqn:L';
    destruct a as [a| | |]; try reflexivity;
    exfalso; qc_bool; subst; qc_to_q; lra.
Qed.

Lemma score_expr_resource_zero (w w' : Qc) (w_t pn tn : num) :
  score_expr w_t (Fin w') pn tn zero = score_expr w_t (Fin w) pn tn zero.
Proof.
  unfold score_expr, zero. simpl mul at 2 4.
  now rewrite !Qcmult_0_r.
Qed.

(** The resource weight acts like the time weight: for one table, one
    time weight and two resource weights [w_r < w_r'], every product has
    its row in both outputs; if its normalised resource is above 0 its
    score under [w_r'] is not greater than under [w_r], and if its
    normalised resource is 0 the two scores are the same. *)
Theorem resource_weight_monotone (sort_values : sorter)
  (product_stats : list Stats.t) (w_t : num) (w_r w_r' : Qc) (s : Stats.t) :
  sorts_by_score_desc sort_values ->
  In s product_stats ->
  (w_r < w_r')%Qc ->
  let r := select_scored (work_row product_stats w_t (Fin w_r) s) in
  let r' := select_scored (work_row product_stats w_t (Fin w_r') s) in
  In r (compute_product_scores sort_values product_stats w_t (Fin w_r)) /\
  In r' (compute_product_scores sort_values product_stats w_t (Fin w_r')) /\
  (lt zero (resource_norm product_stats s) ->
   ltb (Scored.score r) (Scored.score r') = false) /\
  (resource_norm product_stats s = zero ->
   Scored.score r' = Scored.score r).
Proof.
  intros Hsort Hin Hw r r'.
  split; [|split; [|split]].
  - apply (In_compute_product_scores _ _ _ _ _ Hsort). now exists s.
  - apply (In_compute_product_scores _ _ _ _ _ Hsort). now exists s.
  - intro Hr. simpl. unfold lt in Hr.
    destruct (resource_norm product_stats s) as [q| | |];
      try discriminate.
    + apply score_expr_resource_weight_finite; [assumption|].
      now apply ltb_Fin in Hr.
    + now apply score_expr_resource_weight_inf.
  - intro Hr. simpl. rewrite Hr. apply score_expr_resource_zero.
Qed.

Lemma resource_weight_monotone_witness :
  let stats := product_stats sample_orders in
  let axle := stats_row sample_orders "Axle" in
  ltb (Scored.score (select_scored (work_row stats one one axle)))
      (Scored.score (select_scored (work_row stats one (ofZ 2) axle)))
    = false.
Proof.
  intros stats axle.
  refine (proj1 (proj2 (proj2
    (resource_weight_monotone sort_values_stable stats one (Q2Qc 1)
       (Q2Qc (inject_Z 2)) axle sort_values_stable_contract _ _))) _).
  - left; reflexivity.
  - reflexivity.
  - vm_compute; reflexivity.
Defined.

(** ** The allocation cell: the returned table *)

Lemma map2_plan_row_names (data : list Scored.t) : forall x : list num,
  List.length x = List.length data ->
  map Plan.product_name (map2 plan_row data x) =
    map Scored.product_name data /\
  map Plan.score (map2 plan_row data x) = map Scored.score data /\
  map Plan.recommended_qty (map2 plan_row data x) =
    map round_astype_int x.
Proof.
  induction data as [|r data IH]; intros [|v x] Hlen;
    try discriminate; [repeat split|].
  simpl in Hlen. injection Hlen as Hlen.
  destruct (IH x Hlen) as (H1 & H2 & H3).
  simpl. rewrite H1, H2, H3. repeat split.
Qed.

(** What a returned table tells about the call that made it. *)
Lemma optimize_production_returns_table (sort_values : sorter)
  (linprog : solver) (product_stats : list Stats.t)
  (w_t w_r T_max R_max : num) (rows : list Plan.t) :
  optimize_production sort_values linprog product_stats w_t w_r
    T_max R_max = Returns (Recommended rows) ->
  let data := compute_product_scores sort_values product_stats w_t w_r in
  exists result,
    call_linprog linprog data T_max R_max = Returns result /\
    Opt.success result = true /\
    List.length (Opt.x result) = List.length data /\
    rows = map2 plan_row data (Opt.x result).
Proof.
  intros H data. unfold optimize_production in H. fold data in H.
  destruct (call_linprog linprog data T_max R_max) as [result|e];
    [|discriminate].
  destruct (Opt.success result) eqn:Hs; [|discriminate].
  destruct (Nat.eqb _ _) eqn:Hl; [|discriminate].
  apply Nat.eqb_eq in Hl. inversion H; subst.
  exists result. repeat split; assumption.
Qed.

(** Whatever the solver, a table returned by [optimize_production] comes
    from a successful solve and lines up with the scorer's output: the
    same product names and the same scores, row by row, with the solver's
    quantities rounded; so each product of [product_stats] has exactly
    one recommendation. *)
Theorem returned_table_lists_the_scored_products (sort_values : sorter)
  (linprog : solver) (product_stats : list Stats.t)
  (w_t w_r T_max R_max : num) (rows : list Plan.t) :
  sorts_by_score_desc sort_values ->
  optimize_production sort_values linprog product_stats w_t w_r
    T_max R_max = Returns (Recommended rows) ->
  let data := compute_product_scores sort_values product_stats w_t w_r in
  map Plan.product_name rows = map Scored.product_name data /\
  map Plan.score rows = map Scored.score data /\
  Permutation (map Plan.product_name rows)
              (map Stats.product_name product_stats) /\
  exists result,
    call_linprog linprog data T_max R_max = Returns result /\
    Opt.success result = true /\
    map Plan.recommended_qty rows = map round_astype_int (Opt.x result).
Proof.
  intros Hsort H data.
  destruct (optimize_production_returns_table _ _ _ _ _ _ _ _ H)
    as (result & Hcall & Hs & Hlen & ->).
  fold data in Hcall, Hlen.
  destruct (map2_plan_row_names data (Opt.x result) Hlen) as (H1 & H2 & H3).
  fold data. split; [exact H1|]. split; [exact H2|]. split.
  - rewrite H1. unfold data, compute_product_scores.
    destruct (Hsort (map select_scored
                       (work_frame product_stats w_t w_r))) as [Hperm _].
    rewrite (Permutation_map Scored.product_name Hperm).
    now rewrite scored_names.
  - exists result. repeat split; assumption.
Qed.

(** *** Rounding *)

Lemma this_half : (this half == 1 # 2)%Q.
Proof. reflexivity. Qed.

Lemma this_Qc_of_Z (z : Z) : (this (Qc_of_Z z) == inject_Z z)%Q.
Proof. apply this_Q2Qc. Qed.

Lemma round_half_even_spec (q : Qc) :
  let n := Qnum (this q) in
  let d := Zpos (Qden (this q)) in
  let z := round_half_even q in
  (- d <= 2 * (z * d) - 2 * n <= d)%Z /\ (0 <= n -> 0 <= z)%Z.
Proof.
  unfold round_half_even. cbv zeta.
  set (n := Qnum (this q)). set (d := Zpos (Qden (this q))).
  set (a := (2 * n + d)%Z). set (b := (2 * d)%Z). set (f := (a / b)%Z).
  assert (Hd : (0 < d)%Z) by (unfold d; lia).
  assert (Hb : (0 < b)%Z) by (unfold b; lia).
  assert (Hdm : (a = b * f + a mod b)%Z) by (apply Z.div_mod; lia).
  pose proof (Z.mod_pos_bound a b Hb) as Hm.
  assert (Hf0 : (0 <= n -> 0 <= f)%Z).
  { intro Hn. apply Z.div_pos; unfold a; lia. }
  assert (Ha : (a = 2 * n + d)%Z) by reflexivity.
  assert (Hb' : (b = 2 * d)%Z) by reflexivity.
  set (rem := (a mod b)%Z) in *.
  clearbody rem f a b d n. subst a b.
  destruct (Z.eqb rem 0) eqn:E; cbn [andb].
  - apply Z.eqb_eq in E. subst rem. destruct (Z.odd f) eqn:O.
    + split; [nia|].
      intro Hn. specialize (Hf0 Hn).
      assert (f <> 0)%Z by (intro F; rewrite F in O; discriminate). lia.
    + split; [nia | assumption].
  - apply Z.eqb_neq in E. split; [nia | assumption].
Qed.

Lemma round_half_even_facts (q : Qc) :
  let z := round_half_even q in
  (Qc_of_Z z - q <= half)%Qc /\
  (q - Qc_of_Z z <= half)%Qc /\
  ((Qc0 <= q)%Qc -> (0 <= z)%Z) /\
  (forall k, q = Qc_of_Z k -> z = k).
Proof.
  intro z. subst z.
  destruct (round_half_even_spec q) as [[Hlo Hhi] Hsign].
  set (z := round_half_even q) in *. clearbody z.
  split; [|split; [|split]].
  - qc_to_q. rewrite this_Qc_of_Z, this_half.
    destruct (this q) as [n d]. cbn [Qnum Qden] in *.
    unfold Qle, Qminus, Qplus, Qopp, inject_Z. cbn [Qnum Qden]. lia.
  - qc_to_q. rewrite this_Qc_of_Z, this_half.
    destruct (this q) as [n d]. cbn [Qnum Qden] in *.
    unfold Qle, Qminus, Qplus, Qopp, inject_Z. cbn [Qnum Qden]. lia.
  - intro Hq. apply Hsign. unfold Qcle in Hq. rewrite this_Qc0 in Hq.
    destruct (this q) as [n d]. unfold Qle in Hq.
    cbn [Qnum Qden] in *. lia.
  - intros k ->.
    assert (Hk : this (Qc_of_Z k) = inject_Z k).
    { unfold Qc_of_Z, Q2Qc. cbn [this]. apply Qred_identity.
      cbn [Qnum Qden inject_Z]. apply Z.gcd_1_r. }
    rewrite Hk in Hlo, Hhi. cbn [Qnum Qden inject_Z] in Hlo, Hhi. lia.
Qed.

(** A quantity within int64 rounds to an integer within int64: the cast
    gives the rounded value itself. *)
Lemma round_astype_int_in_range (q : Qc) :
  fits_int64 q -> round_astype_int (Fin q) = round_half_even q.
Proof.
  intros [Hlo Hhi]. cbn [round_astype_int].
  destruct (round_half_even_spec q) as [[Hl Hh] _].
  set (z := round_half_even q) in *. clearbody z.
  assert (Hz : (int64_min <= z <= int64_max)%Z).
  { unfold Qcle in Hlo, Hhi. rewrite this_Qc_of_Z in Hlo, Hhi.
    destruct (this q) as [n d]. cbn [Qnum Qden] in *.
    unfold Qle, inject_Z in Hlo, Hhi. cbn [Qnum Qden] in Hlo, Hhi.
    unfold int64_min, int64_max in *.
    set (m := (2 ^ 63)%Z) in *. clearbody m. nia. }
  destruct Hz as [Hz1 Hz2].
  apply Z.leb_le in Hz1, Hz2. now rewrite Hz1, Hz2.
Qed.

(** [np.round(.).astype(int)] on a finite quantity within int64: the
    integer is at most one half away from the quantity, it is not
    negative when the quantity is not, and a quantity that is an integer
    is returned as it is. *)
Lemma round_astype_int_facts (q : Qc) :
  fits_int64 q ->
  let z := round_astype_int (Fin q) in
  (Qc_of_Z z - q <= half)%Qc /\
  (q - Qc_of_Z z <= half)%Qc /\
  ((Qc0 <= q)%Qc -> (0 <= z)%Z) /\
  (forall k, q = Qc_of_Z k -> z = k).
Proof.
  intros Hq z. subst z. rewrite (round_astype_int_in_range q Hq).
  apply round_half_even_facts.
Qed.

(** Whatever the quantity, the cast gives an int64. *)
Lemma round_astype_int_is_int64 (v : num) :
  (int64_min <= round_astype_int v <= int64_max)%Z.
Proof.
  assert (Hm : (int64_min <= int64_min <= int64_max)%Z)
    by (unfold int64_min, int64_max; lia).
  destruct v as [q| | |]; cbn [round_astype_int]; try exact Hm.
  destruct (Z.leb int64_min (round_half_even q)) eqn:E1;
    destruct (Z.leb (round_half_even q) int64_max) eqn:E2;
    cbn [andb]; try exact Hm.
  apply Z.leb_le in E1, E2. lia.
Qed.

Lemma map2_plan_row_Forall2 (P : Plan.t -> num -> Prop)
  (data : list Scored.t) : forall x : list num,
  List.length x = List.length data ->
  (forall r v, P (plan_row r v) v) ->
  Forall2 P (map2 plan_row data x) x.
Proof.
  induction data as [|r data IH]; intros [|v x] Hlen HP;
    try discriminate; [constructor|].
  simpl in Hlen. injection Hlen as Hlen. simpl.
  constructor; [apply HP | now apply IH].
Qed.

(** In a returned table every recommended quantity is the solver's
    quantity of that row rounded and cast to int64.  For a quantity
    within int64 it is at most one half away from it, not negative when
    it is not negative (as the bounds [(0, None)] ask of the solver), and
    equal to it when it is an integer.  (Outside int64 the cast wraps:
    see [round_astype_int].) *)
Theorem recommended_quantities_are_rounded (sort_values : sorter)
  (linprog : solver) (product_stats : list Stats.t)
  (w_t w_r T_max R_max : num) (rows : list Plan.t) (result : Opt.result) :
  optimize_production sort_values linprog product_stats w_t w_r
    T_max R_max = Returns (Recommended rows) ->
  call_linprog linprog
    (compute_product_scores sort_values product_stats w_t w_r)
    T_max R_max = Returns result ->
  Forall2
    (fun r v => forall q, v = Fin q -> fits_int64 q ->
       (Qc_of_Z (Plan.recommended_qty r) - q <= half)%Qc /\
       (q - Qc_of_Z (Plan.recommended_qty r) <= half)%Qc /\
       ((Qc0 <= q)%Qc -> (0 <= Plan.recommended_qty r)%Z) /\
       (forall k, q = Qc_of_Z k -> Plan.recommended_qty r = k))
    rows (Opt.x result).
Proof.
  intros H Hcall.
  destruct (optimize_production_returns_table _ _ _ _ _ _ _ _ H)
    as (result' & Hcall' & _ & Hlen & ->).
  rewrite Hcall in Hcall'. inversion Hcall'; subst result'.
  apply map2_plan_row_Forall2; [assumption|].
  intros r v q -> Hq. cbn [plan_row Plan.recommended_qty].
  now apply round_astype_int_facts.
Qed.

Lemma returned_table_lists_the_scored_products_witness :
  let stats := product_stats sample_orders in
  let rows := map2 plan_row
                (compute_product_scores sort_values_stable stats one one)
                [ofQ (5 # 2); zero; zero] in
  map Plan.product_name rows =
    map Scored.product_name
      (compute_product_scores sort_values_stable stats one one) /\
  Permutation (map Plan.product_name rows)
              (map Stats.product_name stats).
Proof.
  intros stats rows.
  assert (H : optimize_production sort_values_stable
                (answering [ofQ (5 # 2); zero; zero]) stats one one
                (ofZ 10) (ofZ 20) = Returns (Recommended rows))
    by (vm_compute; reflexivity).
  destruct (returned_table_lists_the_scored_products _ _ _ _ _ _ _ _
              sort_values_stable_contract H) as (H1 & _ & H3 & _).
  split; assumption.
Defined.

Lemma recommended_quantities_are_rounded_witness :
  let stats := product_stats sample_orders in
  let x := [ofQ (5 # 2); zero; zero] in
  Forall2
    (fun r v => forall q, v = Fin q -> fits_int64 q ->
       (Qc_of_Z (Plan.recommended_qty r) - q <= half)%Qc /\
       (q - Qc_of_Z (Plan.recommended_qty r) <= half)%Qc /\
       ((Qc0 <= q)%Qc -> (0 <= Plan.recommended_qty r)%Z) /\
       (forall k, q = Qc_of_Z k -> Plan.recommended_qty r = k))
    (map2 plan_row
       (compute_product_scores sort_values_stable stats one one) x) x.
Proof.
  intros stats x.
  refine (recommended_quantities_are_rounded sort_values_stable
            (answering x) stats one one (ofZ 10) (ofZ 20) _
            {| Opt.success := true; Opt.status := 0; Opt.x := x;
               Opt.message := "Optimization terminated successfully." |}
            _ _).
  - vm_compute; reflexivity.
  - reflexivity.
Defined.

(** ** What the cells do not depend on *)

(** The scorer reads the name, profit, time and resource of the table and
    nothing else: two tables that agree on these four columns get the
    same output, whatever their other columns hold. *)
Theorem scores_depend_on_the_metric_columns_only (sort_values : sorter)
  (t1 t2 : list Stats.t) (w_t w_r : num) :
  map metrics_of_stats t1 = map metrics_of_stats t2 ->
  compute_product_scores sort_values t1 w_t w_r =
  compute_product_scores sort_values t2 w_t w_r.
Proof.
  intro H. unfold compute_product_scores. f_equal.
  assert (Hp : map Stats.profit t1 = map Stats.profit t2).
  { apply (f_equal (map (fun m => snd (fst (fst m))))) in H.
    now rewrite !map_map in H. }
  assert (Ht : map Stats.time t1 = map Stats.time t2).
  { apply (f_equal (map (fun m => snd (fst m)))) in H.
    now rewrite !map_map in H. }
  assert (Hr : map Stats.resource t1 = map Stats.resource t2).
  { apply (f_equal (map (fun m => snd m))) in H.
    now rewrite !map_map in H. }
  unfold work_frame. rewrite !map_map.
  assert (G : forall l1 l2 : list Stats.t,
            map metrics_of_stats l1 = map metrics_of_stats l2 ->
            map (fun s => select_scored (work_row t1 w_t w_r s)) l1 =
            map (fun s => select_scored (work_row t2 w_t w_r s)) l2).
  { induction l1 as [|a l1 IH]; intros [|b l2] E; try discriminate;
      [reflexivity|].
    cbn [map] in E. unfold metrics_of_stats at 1 2 in E.
    injection E as En Ep Et Er E. cbn [map]. f_equal; [|now apply IH].
    unfold select_scored, work_row, profit_norm, time_norm, resource_norm.
    cbn [Work.base Work.score]. rewrite Hp, Ht, Hr, En, Ep, Et, Er.
    reflexivity. }
  now apply G.
Qed.

Lemma scores_depend_on_the_metric_columns_only_witness :
  let t1 := product_stats sample_orders in
  let t2 := map (fun s =>
                   Stats.mk (Stats.product_name s) (Stats.profit s)
                     (Stats.time s) NaN NaN NaN NaN NaN NaN NaN
                     (Stats.resource s)) t1 in
  compute_product_scores sort_values_stable t1 one one =
  compute_product_scores sort_values_stable t2 one one.
Proof.
  intros t1 t2.
  apply scores_depend_on_the_metric_columns_only.
  unfold t2. rewrite map_map. reflexivity.
Defined.

Lemma group_app (df extra : list Rec.t) (k : string) :
  (forall r, In r extra -> Rec.product_name r <> k) ->
  group (df ++ extra) k = group df k.
Proof.
  intro H. unfold group. rewrite filter_app.
  assert (E : filter (fun r => String.eqb (Rec.product_name r) k) extra = []).
  { induction extra as [|r extra IH]; [reflexivity|]. simpl.
    destruct (String.eqb_spec (Rec.product_name r) k) as [Ek|_].
    - exfalso. apply (H r); [now left | assumption].
    - apply IH. intros r' Hr'. apply H. now right. }
  rewrite E. apply app_nil_r.
Qed.

(** Orders of other products do not touch a product's row: when further
    orders are appended, none of them for the product of [row], the table
    of the longer list still has that very row. *)
Theorem other_products_leave_row_unchanged (df extra : list Rec.t)
  (row : Stats.t) :
  In row (product_stats df) ->
  (forall r, In r extra ->
             Rec.product_name r <> Stats.product_name row) ->
  In row (product_stats (df ++ extra)).
Proof.
  intros Hin Hextra.
  destruct (In_product_stats df row Hin) as [Hrow [r [Hr Hname]]].
  unfold product_stats. apply in_map_iff.
  exists (Stats.product_name row). split.
  - rewrite Hrow at 2. unfold stats_row.
    now rewrite (group_app df extra _ Hextra).
  - apply In_group_keys. exists r. split; [|assumption].
    apply in_or_app. now left.
Qed.

Lemma other_products_leave_row_unchanged_witness :
  In (stats_row sample_orders "Bolt")
     (product_stats (sample_orders ++ idle_orders)).
Proof.
  apply other_products_leave_row_unchanged.
  - right; left; reflexivity.
  - intros r [<-|[<-|[]]]; discriminate.
Defined.

(** ** The scoring cell over the store: when the call returns *)

Lemma get_set_same (c : string) (v : list num)
  (cols : list (string * list num)) :
  Frame.get c (Frame.set c v cols) = Some v.
Proof.
  induction cols as [|[c' v'] cols IH]; simpl.
  - now rewrite String.eqb_refl.
  - destruct (String.eqb c c') eqn:E; simpl.
    + now rewrite String.eqb_refl.
    + now rewrite E.
Qed.

Lemma get_set_other (c c' : string) (v : list num)
  (cols : list (string * list num)) :
  c <> c' -> Frame.get c (Frame.set c' v cols) = Frame.get c cols.
Proof.
  intro Hne. apply String.eqb_neq in Hne.
  induction cols as [|[c'' v''] cols IH]; simpl.
  - now rewrite Hne.
  - destruct (String.eqb c' c'') eqn:E; simpl.
    + apply String.eqb_eq in E. subst c''. now rewrite Hne.
    + now rewrite IH.
Qed.

Lemma bind_raise {A B : Type} (m : M A) (k : A -> M B) (h h' : store)
  (e : string) :
  m h = (Raises e, h') -> bind m k h = (Raises e, h').
Proof. intro E. unfold bind. now rewrite E. Qed.

Lemma get_col_missing (h : store) (l : loc) (f : Frame.t) (c : string) :
  nth_error h l = Some f -> Frame.get c (Frame.columns f) = None ->
  get_col l c h = (Raises "KeyError", h).
Proof.
  intros E G. unfold get_col.
  rewrite (bind_run _ _ _ _ _ (load_run _ _ _ E)). now rewrite G.
Qed.

Lemma has_column_get (c : string) (f : Frame.t) :
  has_column c f = true <-> exists v, Frame.get c (Frame.columns f) = Some v.
Proof.
  unfold has_column. destruct (Frame.get c (Frame.columns f)) as [v|].
  - split; [eauto | reflexivity].
  - split; [discriminate | intros [v E]; discriminate].
Qed.

Lemma has_column_false (c : string) (f : Frame.t) :
  has_column c f = false <-> Frame.get c (Frame.columns f) = None.
Proof.
  unfold has_column. destruct (Frame.get c (Frame.columns f)).
  - split; discriminate.
  - split; reflexivity.
Qed.

(** The run of the call on a frame that has the three metric columns. *)
Lemma compute_product_scores_st_returns (sort_values : sorter) (h : store)
  (p : loc) (f : Frame.t) (w_t w_r : num) (pc tc rc : list num) :
  nth_error h p = Some f ->
  Frame.get "profit" (Frame.columns f) = Some pc ->
  Frame.get "time" (Frame.columns f) = Some tc ->
  Frame.get "resource" (Frame.columns f) = Some rc ->
  exists work selected,
    compute_product_scores_st sort_values p w_t w_r h =
    (Returns (S (S (List.length h))),
     h ++ [ work; selected;
            frame_of_scored
              (sort_values
                 (zip_scored (Frame.names f) pc tc rc
                    (score_col w_t w_r (norm_col pc) (norm_col tc)
                       (norm_col rc)))) ]).
Proof.
  intros Hp Gp Gt Gr. unfold compute_product_scores_st.
  rewrite (bind_run _ _ _ _ _ (copy_run _ _ _ Hp)).
  erewrite bind_run by
    (eapply get_col_run; [apply nth_error_last | exact Gp]).
  erewrite bind_run by apply set_col_run.
  erewrite bind_run by
    (eapply get_col_run;
     [apply nth_error_last
     | cbn [Frame.columns]; rewrite get_set_other by discriminate;
       exact Gt]).
  erewrite bind_run by apply set_col_run. cbn [Frame.columns Frame.names].
  erewrite bind_run by
    (eapply get_col_run;
     [apply nth_error_last
     | cbn [Frame.columns]; rewrite !get_set_other by discriminate;
       exact Gr]).
  erewrite bind_run by apply set_col_run. cbn [Frame.columns Frame.names].
  erewrite bind_run by
    (eapply get_col_run;
     [apply nth_error_last
     | cbn [Frame.columns]; rewrite !get_set_other by discriminate;
       apply get_set_same]).
  erewrite bind_run by
    (eapply get_col_run;
     [apply nth_error_last
     | cbn [Frame.columns]; rewrite !get_set_other by discriminate;
       apply get_set_same]).
  erewrite bind_run by
    (eapply get_col_run;
     [apply nth_error_last | cbn [Frame.columns]; apply get_set_same]).
  erewrite bind_run by apply set_col_run. cbn [Frame.columns Frame.names].
  erewrite bind_run.
  2:{ eapply select_run; [apply nth_error_last|].
      cbn [Frame.columns pick].
      rewrite get_set_same.
      rewrite !get_set_other by discriminate.
      rewrite Gp, Gt, Gr. reflexivity. }
  erewrite sort_values_by_score_run by apply nth_error_last.
  rewrite !length_app. cbn [List.length].
  replace (List.length h + 1 + 1)%nat with (S (S (List.length h))) by lia.
  rewrite <- !app_assoc. cbn [app].
  do 2 eexists. reflexivity.
Qed.

(** The run of the call on a frame that lacks one of them. *)
Lemma compute_product_scores_st_key_error (sort_values : sorter)
  (h : store) (p : loc) (f : Frame.t) (w_t w_r : num) :
  nth_error h p = Some f ->
  has_metric_columns f = false ->
  fst (compute_product_scores_st sort_values p w_t w_r h) =
  Raises "KeyError".
Proof.
  intros Hp Hcols. unfold compute_product_scores_st.
  rewrite (bind_run _ _ _ _ _ (copy_run _ _ _ Hp)).
  destruct (Frame.get "profit" (Frame.columns f)) as [pc|] eqn:Gp.
  2:{ erewrite bind_raise; [reflexivity|].
      eapply get_col_missing; [apply nth_error_last | exact Gp]. }
  erewrite bind_run by
    (eapply get_col_run; [apply nth_error_last | exact Gp]).
  erewrite bind_run by apply set_col_run.
  destruct (Frame.get "time" (Frame.columns f)) as [tc|] eqn:Gt.
  2:{ erewrite bind_raise; [reflexivity|].
      eapply get_col_missing; [apply nth_error_last|].
      cbn [Frame.columns]. rewrite get_set_other by discriminate.
      exact Gt. }
  erewrite bind_run by
    (eapply get_col_run;
     [apply nth_error_last
     | cbn [Frame.columns]; rewrite get_set_other by discriminate;
       exact Gt]).
  erewrite bind_run by apply set_col_run. cbn [Frame.columns Frame.names].
  destruct (Frame.get "resource" (Frame.columns f)) as [rc|] eqn:Gr.
  2:{ erewrite bind_raise; [reflexivity|].
      eapply get_col_missing; [apply nth_error_last|].
      cbn [Frame.columns]. rewrite !get_set_other by discriminate.
      exact Gr. }
  exfalso. unfold has_metric_columns, has_column in Hcols.
  rewrite Gp, Gt, Gr in Hcols. discriminate.
Qed.

(** The errors of the call and the shape of what it returns.  The call
    raises NameError when the global [product_stats] is unbound and
    KeyError when the table lacks one of the columns profit, time and
    resource; a frame that it returns has the columns profit, time,
    resource and score next to the names.  Whatever the outcome, the
    frames that were in the store are unchanged.  (The frames of this
    model carry the product names with them; of a table without a
    product_name column, which the selection would refuse, nothing is
    said.) *)
Theorem scoring_errors_and_result_columns (sort_values : sorter)
  (h : store) (p : loc) (w_t w_r : num) :
  let run := compute_product_scores_st sort_values p w_t w_r h in
  match nth_error h p with
  | None => fst run = Raises "NameError"
  | Some f =>
      if has_metric_columns f then
        forall l, fst run = Returns l ->
          exists out,
            nth_error (snd run) l = Some out /\
            map fst (Frame.columns out) =
              ["profit"; "time"; "resource"; "score"]
      else fst run = Raises "KeyError"
  end /\
  forall q g, nth_error h q = Some g -> nth_error (snd run) q = Some g.
Proof.
  intro run. split.
  - destruct (nth_error h p) as [f|] eqn:Hp.
    + destruct (has_metric_columns f) eqn:Hcols.
      * unfold has_metric_columns in Hcols.
        apply andb_true_iff in Hcols. destruct Hcols as [Hcols Hr].
        apply andb_true_iff in Hcols. destruct Hcols as [Hpc Ht].
        apply has_column_get in Hpc, Ht, Hr.
        destruct Hpc as [pc Gp], Ht as [tc Gt], Hr as [rc Gr].
        destruct (compute_product_scores_st_returns sort_values h p f
                    w_t w_r pc tc rc Hp Gp Gt Gr) as (wk & sel & Hrun).
        subst run. rewrite Hrun. cbn [fst snd].
        intros l Hl. inversion Hl; subst l.
        eexists. split.
        -- rewrite nth_error_app2 by lia.
           replace (S (S (List.length h)) - List.length h)%nat
             with 2%nat by lia.
           reflexivity.
        -- reflexivity.
      * now apply compute_product_scores_st_key_error with (f := f).
    + subst run. unfold compute_product_scores_st, copy, bind, load.
      now rewrite Hp.
  - intros q g Hq. now apply compute_product_scores_st_frame.
Qed.

Lemma product_stats_one_row_per_product_witness :
  NoDup (map Stats.product_name (product_stats sample_orders)) /\
  (List.length (product_stats sample_orders) <= 4)%nat.
Proof.
  split.
  - exact (proj1 (proj2 (product_stats_one_row_per_product sample_orders))).
  - exact (proj2 (proj2 (proj2
             (product_stats_one_row_per_product sample_orders)))).
Defined.

Lemma scoring_errors_and_result_columns_witness :
  fst (compute_product_scores_st sort_values_stable 0%nat one one
         [frame_without_resource]) = Raises "KeyError" /\
  nth_error
    (snd (compute_product_scores_st sort_values_stable 0%nat one one
            [frame_without_resource])) 0%nat = Some frame_without_resource.
Proof.
  destruct (scoring_errors_and_result_columns sort_values_stable
              [frame_without_resource] 0%nat one one) as [Hrun Hkept].
  split.
  - exact Hrun.
  - apply Hkept. reflexivity.
Defined.

(** ** The ranking when no two scores are equal *)

Lemma row_before_antisym (a b : Scored.t) :
  row_before a b = true -> row_before b a = true ->
  Scored.score a = Scored.score b.
Proof.
  unfold row_before, score_before. intros H1 H2.
  destruct (isnan (Scored.score a)) eqn:Na, (isnan (Scored.score b)) eqn:Nb;
    simpl in *; try discriminate.
  - destruct (Scored.score a), (Scored.score b); try discriminate.
    reflexivity.
  - now apply leb_antisym.
Qed.

Lemma NoDup_map_injective {A B : Type} (f : A -> B) (l : list A) (a b : A) :
  NoDup (map f l) -> In a l -> In b l -> f a = f b -> a = b.
Proof.
  induction l as [|x l IH]; intros Hnd Ha Hb E; [contradiction|].
  simpl in Hnd. inversion Hnd as [|? ? Hx Hnd']; subst.
  destruct Ha as [->|Ha], Hb as [->|Hb].
  - reflexivity.
  - exfalso. apply Hx. rewrite E. now apply in_map.
  - exfalso. apply Hx. rewrite <- E. now apply in_map.
  - now apply IH.
Qed.

(** Two sorted reorderings of one list are the same list when the order
    leaves no choice between two of its rows. *)
Lemma sorted_reordering_unique (l1 : list Scored.t) :
  forall l2 : list Scored.t,
  StronglySorted (fun a b => row_before a b = true) l1 ->
  StronglySorted (fun a b => row_before a b = true) l2 ->
  Permutation l1 l2 ->
  (forall a b, In a l1 -> In b l1 ->
     row_before a b = true -> row_before b a = true -> a = b) ->
  l1 = l2.
Proof.
  induction l1 as [|a l1 IH]; intros l2 S1 S2 P Hanti.
  - apply Permutation_nil in P. now subst.
  - destruct l2 as [|b l2].
    + apply Permutation_sym, Permutation_nil in P. discriminate.
    + inversion S1 as [|? ? S1' A1]; subst.
      inversion S2 as [|? ? S2' A2]; subst.
      rewrite Forall_forall in A1, A2.
      assert (Hab : a = b).
      { assert (Ha : In a (b :: l2))
          by (apply (Permutation_in _ P); now left).
        assert (Hb : In b (a :: l1))
          by (apply (Permutation_in _ (Permutation_sym P)); now left).
        destruct Ha as [Ha|Ha]; [now symmetry|].
        destruct Hb as [Hb|Hb]; [assumption|].
        apply Hanti; [now left | now right | now apply A1 | now apply A2]. }
      subst b. f_equal. apply IH; try assumption.
      * now apply Permutation_cons_inv in P.
      * intros x y Hx Hy. apply Hanti; now right.
Qed.

(** When no two products have the same score, the output does not depend
    on the sort: any two sorts that order by descending score return the
    same frame. *)
Theorem ranking_is_fixed_without_ties (sort1 sort2 : sorter)
  (product_stats : list Stats.t) (w_t w_r : num) :
  sorts_by_score_desc sort1 ->
  sorts_by_score_desc sort2 ->
  NoDup (map (fun s => Work.score (work_row product_stats w_t w_r s))
           product_stats) ->
  compute_product_scores sort1 product_stats w_t w_r =
  compute_product_scores sort2 product_stats w_t w_r.
Proof.
  intros H1 H2 Hnd. unfold compute_product_scores.
  set (rows := map select_scored (work_frame product_stats w_t w_r)).
  destruct (H1 rows) as [P1 S1]. destruct (H2 rows) as [P2 S2].
  assert (Hscores : NoDup (map Scored.score rows)).
  { unfold rows, work_frame. rewrite !map_map. exact Hnd. }
  apply sorted_reordering_unique; try assumption.
  - rewrite P1. now symmetry.
  - intros a b Ha Hb Hab Hba.
    apply (NoDup_map_injective Scored.score rows); try assumption.
    + now apply (Permutation_in _ P1).
    + now apply (Permutation_in _ P1).
    + now apply row_before_antisym.
Qed.

Lemma eqb_false_neq (x y : num) :
  eqb x y = false -> isnan x = false -> x <> y.
Proof.
  intros E N H. subst y. rewrite (eqb_refl x N) in E. discriminate.
Qed.

Lemma ranking_is_fixed_without_ties_witness :
  compute_product_scores sort_values_stable
    (product_stats free_orders) one one =
  compute_product_scores sort_values_ties_reversed
    (product_stats free_orders) one one.
Proof.
  apply ranking_is_fixed_without_ties.
  - apply sort_values_stable_contract.
  - apply sort_values_ties_reversed_contract.
  - cbn [map product_stats]. constructor; [|constructor; [|constructor]].
    + intros [E|[]]. symmetry in E. revert E.
      apply eqb_false_neq; vm_compute; reflexivity.
    + intros [].
Defined.
